(** * libbitcoin-watcher: tx_db and tx_updater

    A shallow embedding of [tx_db] (src/configure.ac, the C++ part after
    the autoconf script) and of [tx_updater] (src/unnamed/part_000), on
    stdpp's finite maps.  Bytes are [Z] values in [0, 256); a byte blob
    ([bc::data_chunk]) is a [list Z]; fixed-width integers are [Z] with
    their truncation written out where the code converts. *)

From Stdlib Require Import ZArith Lia.
From stdpp Require Import base list gmap.

Open Scope Z_scope.

(** ** The libbitcoin deserializer

    [bc::make_deserializer] walks an iterator over the blob and throws
    [bc::end_of_stream] when a read runs past the end.  The iterator is
    the remaining suffix of the blob; [None] is the exception. *)
Module Serial.

Definition deser (A : Type) : Type := list Z -> option (A * list Z).

Definition ret {A} (x : A) : deser A := fun it => Some (x, it).

Definition bind {A B} (m : deser A) (k : A -> deser B) : deser B :=
  fun it => match m it with
            | Some (x, it') => k x it'
            | None => None
            end.

Notation "x <-- m ;; k" := (bind m (fun x => k))
  (at level 100, m at next level, right associativity).

(** [read_byte]: one byte, or end_of_stream. *)
Definition read_byte : deser Z :=
  fun it => match it with
            | [] => None
            | b :: rest => Some (b, rest)
            end.

(** [write_N_bytes] / [read_N_bytes]: little endian, [n] bytes; the
    value written is truncated to [n] bytes as the C++ integer is. *)
Fixpoint write_le (n : nat) (x : Z) : list Z :=
  match n with
  | O => []
  | S n' => x mod 256 :: write_le n' (x / 256)
  end.

Fixpoint read_le (n : nat) : deser Z :=
  match n with
  | O => ret 0
  | S n' => b <-- read_byte;; x <-- read_le n';; ret (b + 256 * x)
  end.

(** [read_data(n)]: [n] raw bytes. *)
Fixpoint read_bytes (n : nat) : deser (list Z) :=
  match n with
  | O => ret []
  | S n' => b <-- read_byte;; bs <-- read_bytes n';; ret (b :: bs)
  end.

(** [write_variable_uint] / [read_variable_uint]: Bitcoin's compact size. *)
Definition write_variable_uint (v : Z) : list Z :=
  if v <? 0xfd then [v]
  else if v <=? 0xffff then 0xfd :: write_le 2 v
  else if v <=? 0xffffffff then 0xfe :: write_le 4 v
  else 0xff :: write_le 8 v.

Definition read_variable_uint : deser Z :=
  b <-- read_byte;;
  if b <? 0xfd then ret b
  else if b =? 0xfd then read_le 2
  else if b =? 0xfe then read_le 4
  else read_le 8.

(** [for (i = 0; i < count; ++i) items.push_back(read_item())] *)
Fixpoint read_list {A} (n : nat) (m : deser A) : deser (list A) :=
  match n with
  | O => ret []
  | S n' => x <-- m;; xs <-- read_list n' m;; ret (x :: xs)
  end.

End Serial.

Import Serial.

(** ** libbitcoin's transaction type and its wire format

    [bc::transaction_type] and [satoshi_save] / [satoshi_load] /
    [satoshi_raw_size] come from libbitcoin, which this repository links
    against.  The model follows libbitcoin's Satoshi wire format; a script
    is kept as its raw bytes. *)

(** [bc::output_point]: a transaction hash (32 bytes, as a 256-bit
    number) and an output index (uint32). *)
Record output_point := mk_output_point {
  op_hash : Z;
  op_index : Z
}.

Record transaction_input_type := mk_input {
  previous_output : output_point;
  input_script : list Z;
  sequence : Z
}.

Record transaction_output_type := mk_output {
  output_value : Z;
  output_script : list Z
}.

Record transaction_type := mk_tx {
  tx_version : Z;
  tx_inputs : list transaction_input_type;
  tx_outputs : list transaction_output_type;
  tx_locktime : Z
}.

Definition hash_size : nat := 32.

(** [write_hash] / [read_hash]: the 32 digest bytes. *)
Definition write_hash (h : Z) : list Z := write_le hash_size h.
Definition read_hash : deser Z := read_le hash_size.

Definition save_script (s : list Z) : list Z :=
  write_variable_uint (Z.of_nat (length s)) ++ s.

Definition load_script : deser (list Z) :=
  n <-- read_variable_uint;; read_bytes (Z.to_nat n).

Definition save_input (i : transaction_input_type) : list Z :=
  write_hash (op_hash (previous_output i)) ++
  write_le 4 (op_index (previous_output i)) ++
  save_script (input_script i) ++
  write_le 4 (sequence i).

Definition load_input : deser transaction_input_type :=
  h <-- read_hash;;
  idx <-- read_le 4;;
  s <-- load_script;;
  sq <-- read_le 4;;
  ret (mk_input (mk_output_point h idx) s sq).

Definition save_output (o : transaction_output_type) : list Z :=
  write_le 8 (output_value o) ++ save_script (output_script o).

Definition load_output : deser transaction_output_type :=
  v <-- read_le 8;;
  s <-- load_script;;
  ret (mk_output v s).

Definition satoshi_save (tx : transaction_type) : list Z :=
  write_le 4 (tx_version tx) ++
  write_variable_uint (Z.of_nat (length (tx_inputs tx))) ++
  concat (map save_input (tx_inputs tx)) ++
  write_variable_uint (Z.of_nat (length (tx_outputs tx))) ++
  concat (map save_output (tx_outputs tx)) ++
  write_le 4 (tx_locktime tx).

Definition satoshi_load : deser transaction_type :=
  v <-- read_le 4;;
  ni <-- read_variable_uint;;
  ins <-- read_list (Z.to_nat ni) load_input;;
  no <-- read_variable_uint;;
  outs <-- read_list (Z.to_nat no) load_output;;
  lt <-- read_le 4;;
  ret (mk_tx v ins outs lt).

Definition satoshi_raw_size (tx : transaction_type) : nat :=
  length (satoshi_save tx).

(** Values the C++ types can hold: bytes, uint32 and uint64 fields,
    32-byte hashes, lengths a compact size can express. *)
Definition is_byte (b : Z) : Prop := 0 <= b < 256.
Definition fits (bits : Z) (x : Z) : Prop := 0 <= x < 2 ^ bits.

Definition script_ok (s : list Z) : Prop :=
  Forall is_byte s /\ fits 64 (Z.of_nat (length s)).

Definition input_ok (i : transaction_input_type) : Prop :=
  fits 256 (op_hash (previous_output i)) /\
  fits 32 (op_index (previous_output i)) /\
  script_ok (input_script i) /\ fits 32 (sequence i).

Definition output_ok (o : transaction_output_type) : Prop :=
  fits 64 (output_value o) /\ script_ok (output_script o).

Definition tx_ok (tx : transaction_type) : Prop :=
  fits 32 (tx_version tx) /\
  Forall input_ok (tx_inputs tx) /\ fits 64 (Z.of_nat (length (tx_inputs tx))) /\
  Forall output_ok (tx_outputs tx) /\ fits 64 (Z.of_nat (length (tx_outputs tx))) /\
  fits 32 (tx_locktime tx).

(** ** tx_db *)

(** [bc::payment_address]: version byte and 20-byte short hash. *)
Abbreviation payment_address := (Z * Z)%type.
(** [address_set]: [std::unordered_set<bc::payment_address>]. *)
Abbreviation address_set := (gset payment_address).
(** [bc::output_info_type]: an output point and its value. *)
Abbreviation output_info_type := (output_point * Z)%type.

(** [enum class tx_state]: an [int]; [static_cast<tx_state>] of a byte
    keeps whatever value the byte holds. *)
Module tx_state.
Definition unsent : Z := 0.
Definition unconfirmed : Z := 1.
Definition confirmed : Z := 2.
End tx_state.

Record tx_row := mk_row {
  tx : transaction_type;
  state : Z;
  block_height : Z;
  timestamp : Z;
  need_check : bool
}.

(** [last_height_], [rows_] ([std::unordered_map<hash_digest, tx_row>],
    iterated in the map's own order) and the constant
    [unconfirmed_timeout_]. *)
Record tx_db := mk_db {
  last_height : Z;
  rows : gmap Z tx_row;
  unconfirmed_timeout : Z
}.

Definition old_serial_magic : Z := 0x3eab61c3.
Definition serial_magic : Z := 0xfecdb760.
Definition serial_tx : Z := 0x42.

(** Integer conversions of the C++ code: [size_t] and [time_t] are 64
    bits wide. *)
Definition to_size_t (x : Z) : Z := x mod 2 ^ 64.
Definition to_time_t (x : Z) : Z :=
  let y := x mod 2 ^ 64 in if y <? 2 ^ 63 then y else y - 2 ^ 64.

Definition set_rows (db : tx_db) (r : gmap Z tx_row) : tx_db :=
  mk_db (last_height db) r (unconfirmed_timeout db).
Definition set_last_height (db : tx_db) (h : Z) : tx_db :=
  mk_db h (rows db) (unconfirmed_timeout db).

Definition set_state (r : tx_row) (s : Z) : tx_row :=
  mk_row (tx r) s (block_height r) (timestamp r) (need_check r).
Definition set_confirmed (r : tx_row) (h : Z) : tx_row :=
  mk_row (tx r) tx_state.confirmed h (timestamp r) (need_check r).
Definition set_timestamp (r : tx_row) (t : Z) : tx_row :=
  mk_row (tx r) (state r) (block_height r) t (need_check r).
Definition set_need_check (r : tx_row) : tx_row :=
  mk_row (tx r) (state r) (block_height r) (timestamp r) true.

(** [tx_db(unsigned unconfirmed_timeout)] *)
Definition new_tx_db (unconfirmed_timeout : Z) : tx_db :=
  mk_db 0 ∅ unconfirmed_timeout.

Module TxDb.
Section Ops.

(** [bc::hash_transaction] and [bc::extract] are libbitcoin's. *)
Variable hash_transaction : transaction_type -> Z.
Variable extract : list Z -> option payment_address.

Definition has_tx (db : tx_db) (tx_hash : Z) : bool :=
  match rows db !! tx_hash with Some _ => true | None => false end.

Definition empty_tx : transaction_type := mk_tx 0 [] [] 0.

Definition get_tx (db : tx_db) (tx_hash : Z) : transaction_type :=
  match rows db !! tx_hash with Some r => tx r | None => empty_tx end.

Definition get_tx_height (db : tx_db) (tx_hash : Z) : Z :=
  match rows db !! tx_hash with
  | None => 0
  | Some r => if negb (state r =? tx_state.confirmed) then 0 else block_height r
  end.

(** The loop of [is_spend] over [tx.inputs]. *)
Fixpoint inputs_controlled (addresses : address_set)
    (ins : list transaction_input_type) : bool :=
  match ins with
  | [] => true
  | input :: rest =>
      match extract (input_script input) with
      | None => false
      | Some address =>
          if bool_decide (address ∈ addresses)
          then inputs_controlled addresses rest else false
      end
  end.

Definition is_spend (db : tx_db) (tx_hash : Z) (addresses : address_set) : bool :=
  match rows db !! tx_hash with
  | None => false
  | Some r => inputs_controlled addresses (tx_inputs (tx r))
  end.

(** [point_cmp] orders points by hash, then index; two points are the
    same set element when both are equal. *)
Definition point_eqb (a b : output_point) : bool :=
  (op_hash a =? op_hash b) && (op_index a =? op_index b).

Definition set_find (spends : list output_point) (p : output_point) : bool :=
  existsb (point_eqb p) spends.

(** The inner loop of [get_utxos] over the outputs of one row, with the
    loop counter [i] starting at [i0]. *)
Fixpoint unspent_outputs (spends : list output_point) (tx_hash : Z) (i : Z)
    (outs : list transaction_output_type) : list output_info_type :=
  match outs with
  | [] => []
  | output :: rest =>
      let point := mk_output_point tx_hash i in
      (if set_find spends point then [] else [(point, output_value output)]) ++
      unspent_outputs spends tx_hash (i + 1) rest
  end.

Definition get_utxos (db : tx_db) : list output_info_type :=
  let spends := concat (map (fun hr => map previous_output (tx_inputs (tx hr.2)))
                            (map_to_list (rows db))) in
  concat (map (fun hr => unspent_outputs spends hr.1 0 (tx_outputs (tx hr.2)))
              (map_to_list (rows db))).

(** One row of [serialize], skipped when its timestamp is too old. *)
Definition serialize_row (db : tx_db) (now : Z) (hr : Z * tx_row) : list Z :=
  let '(h, r) := hr in
  if timestamp r + unconfirmed_timeout db <? now then []
  else
    let height := if tx_state.unconfirmed =? state r
                  then to_size_t (timestamp r) else block_height r in
    [serial_tx] ++ write_hash h ++ satoshi_save (tx r) ++
    [state r mod 256] ++ write_le 8 height ++ [if need_check r then 1 else 0].

Definition serialize (db : tx_db) (now : Z) : list Z :=
  write_le 4 serial_magic ++ write_le 8 (last_height db) ++
  concat (map (serialize_row db now) (map_to_list (rows db))).

(** [satoshi_load(serial.iterator(), data.end(), row.tx)] followed by
    [serial.set_iterator(serial.iterator() + satoshi_raw_size(row.tx))]. *)
Definition load_tx_step : deser transaction_type :=
  fun it => match satoshi_load it with
            | Some (t, _) => Some (t, skipn (satoshi_raw_size t) it)
            | None => None
            end.

Definition fail {A} : deser A := fun _ => None.

(** One iteration of the loop of [load]; [None] both for
    [end_of_stream] and for the [return false] on a bad row tag. *)
Definition read_row (now : Z) : deser (Z * tx_row) :=
  tag <-- read_byte;;
  if negb (tag =? serial_tx) then fail else
  hash <-- read_hash;;
  t <-- load_tx_step;;
  st <-- read_byte;;
  bh <-- read_le 8;;
  nc <-- read_byte;;
  ret (hash, mk_row t st bh
               (if tx_state.unconfirmed =? st then to_time_t bh else now)
               (negb (nc =? 0))).

(** [while (serial.iterator() != data.end())]; each iteration reads at
    least the tag byte, so [length data] iterations are enough. *)
Fixpoint load_rows (fuel : nat) (now : Z) (acc : gmap Z tx_row) : deser (gmap Z tx_row) :=
  fun it =>
    match it with
    | [] => Some (acc, [])
    | _ :: _ =>
        match fuel with
        | O => None
        | S fuel' =>
            match read_row now it with
            | Some ((h, r), it') => load_rows fuel' now (<[h := r]> acc) it'
            | None => None
            end
        end
    end.

(** [load]: the result and the store afterwards. *)
Definition load (db : tx_db) (now : Z) (data : list Z) : bool * tx_db :=
  match read_le 4 data with
  | None => (false, db)
  | Some (magic, it) =>
      if old_serial_magic =? magic then (true, db)
      else if negb (serial_magic =? magic) then (false, db)
      else
        match read_le 8 it with
        | None => (false, db)
        | Some (lh, it2) =>
            match load_rows (length data) now ∅ it2 with
            | None => (false, db)
            | Some (rs, _) => (true, mk_db lh rs (unconfirmed_timeout db))
            end
        end
  end.

(** The map [load] fills from complete rows read in order: a later row
    with the same hash replaces an earlier one, as [rows[hash] = row]. *)
Definition insert_rows (acc : gmap Z tx_row) (hrs : list (Z * tx_row)) : gmap Z tx_row :=
  foldl (fun m hr => <[hr.1 := hr.2]> m) acc hrs.

(** The first loop of [check_fork]: the highest confirmed height strictly
    below [height], 0 when there is none. *)
Definition fork_prev_height (height : Z) (db : tx_db) : Z :=
  foldl (fun prev_height hr =>
           if (state hr.2 =? tx_state.confirmed) && (block_height hr.2 <? height)
              && (prev_height <? block_height hr.2)
           then block_height hr.2 else prev_height)
        0 (map_to_list (rows db)).

(** The body of the second loop of [check_fork], applied to one row. *)
Definition mark_row (prev_height : Z) (r : tx_row) : tx_row :=
  if (state r =? tx_state.confirmed) && (block_height r =? prev_height)
  then set_need_check r else r.

(** [check_fork].  The second loop is [for (auto row: rows_)]: [row] is a
    copy of the map entry, so [row.second.need_check = true] updates the
    copy, which is dropped at the end of the iteration; [rows_] itself is
    left as it was. *)
Definition check_fork (height : Z) (db : tx_db) : tx_db :=
  let prev_height := fork_prev_height height db in
  let _row_copies := map (fun hr => mark_row prev_height hr.2) (map_to_list (rows db)) in
  db.

(** What the second loop of [check_fork] would do if it iterated by
    reference ([for (auto& row: rows_)]), as its comment says: mark the
    rows themselves. *)
Definition check_fork_by_reference (height : Z) (db : tx_db) : tx_db :=
  let prev_height := fork_prev_height height db in
  set_rows db (mark_row prev_height <$> rows db).

Definition at_height (db : tx_db) (height : Z) : tx_db :=
  check_fork height (set_last_height db height).

(** [insert]; [now] is [time(nullptr)]. *)
Definition insert (db : tx_db) (now : Z) (t : transaction_type) (st : Z) : bool * tx_db :=
  let tx_hash := hash_transaction t in
  match rows db !! tx_hash with
  | None => (true, set_rows db (<[tx_hash := mk_row t st 0 now false]> (rows db)))
  | Some _ => (false, db)
  end.

(** [confirmed] and [unconfirmed] start with
    [BITCOIN_ASSERT(i != rows_.end())]; [None] is that assertion failing
    (an abort: configure.ac builds with [-DDEBUG]). *)
Definition confirmed (db : tx_db) (tx_hash : Z) (bh : Z) : option tx_db :=
  match rows db !! tx_hash with
  | None => None
  | Some r =>
      let db1 := if (state r =? tx_state.confirmed) && negb (block_height r =? bh)
                 then check_fork (block_height r) db else db in
      match rows db1 !! tx_hash with
      | None => None
      | Some r1 => Some (set_rows db1 (<[tx_hash := set_confirmed r1 bh]> (rows db1)))
      end
  end.

Definition unconfirmed (db : tx_db) (tx_hash : Z) : option tx_db :=
  match rows db !! tx_hash with
  | None => None
  | Some r =>
      let db1 := if state r =? tx_state.confirmed
                 then check_fork (block_height r) db else db in
      match rows db1 !! tx_hash with
      | None => None
      | Some r1 =>
          Some (set_rows db1 (<[tx_hash := set_state r1 tx_state.unconfirmed]> (rows db1)))
      end
  end.

Definition forget (db : tx_db) (tx_hash : Z) : tx_db :=
  set_rows db (delete tx_hash (rows db)).

Definition reset_timestamp (db : tx_db) (now : Z) (tx_hash : Z) : tx_db :=
  match rows db !! tx_hash with
  | Some r => set_rows db (<[tx_hash := set_timestamp r now]> (rows db))
  | None => db
  end.

(** The hashes (or transactions) the [foreach_*] methods pass to their
    callback, in iteration order. *)
Definition foreach_unconfirmed (db : tx_db) : list Z :=
  map fst (List.filter (fun hr => negb (state hr.2 =? tx_state.confirmed))
                  (map_to_list (rows db))).

Definition foreach_forked (db : tx_db) : list Z :=
  map fst (List.filter (fun hr => (state hr.2 =? tx_state.confirmed) && need_check hr.2)
                  (map_to_list (rows db))).

Definition foreach_unsent (db : tx_db) : list transaction_type :=
  map (fun hr => tx hr.2)
      (List.filter (fun hr => state hr.2 =? tx_state.unsent) (map_to_list (rows db))).

(** [has_history]: whether an output of a stored transaction pays to
    [address]; the loops return on the first match. *)
Definition output_pays (address : payment_address) (output : transaction_output_type) : bool :=
  match extract (output_script output) with
  | Some to_address => bool_decide (address = to_address)
  | None => false
  end.

Definition has_history (db : tx_db) (address : payment_address) : bool :=
  existsb (fun hr => existsb (output_pays address) (tx_outputs (tx hr.2)))
          (map_to_list (rows db)).

(** The loop of [get_utxos(addresses)] over the result of [get_utxos()].
    [None] is the [BITCOIN_ASSERT(i != rows_.end())] failing, or
    [tx.outputs[utxo.point.index]] reading past the end. *)
Fixpoint filter_utxos (db : tx_db) (addresses : address_set)
    (raw : list output_info_type) : option (list output_info_type) :=
  match raw with
  | [] => Some []
  | utxo :: rest =>
      match rows db !! op_hash utxo.1 with
      | None => None
      | Some r =>
          match tx_outputs (tx r) !! Z.to_nat (op_index utxo.1) with
          | None => None
          | Some output =>
              let keep := match extract (output_script output) with
                          | Some to_address => bool_decide (to_address ∈ addresses)
                          | None => false
                          end in
              match filter_utxos db addresses rest with
              | None => None
              | Some utxos => Some (if keep then utxo :: utxos else utxos)
              end
          end
      end
  end.

Definition get_utxos_for (db : tx_db) (addresses : address_set) : option (list output_info_type) :=
  filter_utxos db addresses (get_utxos db).

End Ops.
End TxDb.
Import TxDb.

(** ** tx_updater *)

(** [address_row]: poll period and last check, in milliseconds of
    [std::chrono::steady_clock]. *)
Record address_row := mk_address_row {
  poll_time : Z;
  last_check : Z
}.

(** A query the updater handed to [obelisk_codec] and whose callback has
    not run yet, with what the callback captured. *)
Inductive request :=
| RHeight                                  (* fetch_last_height *)
| RTx (tx_hash : Z) (want_inputs : bool)    (* fetch_transaction *)
| RTxMem (tx_hash : Z) (want_inputs : bool) (* fetch_unconfirmed_transaction *)
| RIndex (tx_hash : Z)                      (* fetch_transaction_index *)
| RBroadcast (t : transaction_type)         (* broadcast_transaction *)
| RHistory (address : payment_address).     (* address_fetch_history *)

(** The server's answer: the [on_done] arguments, or an error code. *)
Inductive response :=
| HeightDone (height : Z)
| TxDone (t : transaction_type)
| IndexDone (block_height index : Z)
| BroadcastDone
| HistoryDone (history : list (Z * Z))   (* (output.hash, spend.hash) *)
| Failure.

(** Calls of [tx_callbacks]. *)
Inductive event :=
| on_add (t : transaction_type)
| on_height (height : Z)
| on_send (ok : bool) (t : transaction_type)
| on_quiet
| on_fail.

Record updater := mk_updater {
  db_ : tx_db;
  watch_rows : gmap payment_address address_row;   (* rows_ *)
  failed_ : bool;
  queued_queries_ : Z;                               (* size_t *)
  queued_get_indices_ : Z;                           (* size_t *)
  last_wakeup_ : Z;
  pending : list request;                            (* the codec's queue *)
  events : list event                                (* callbacks_ calls *)
}.

(** A step of the updater; [None] is an abort ([BITCOIN_ASSERT]). *)
Definition M : Type := updater -> option updater.

Definition skip : M := fun s => Some s.

Fixpoint seq_ops (ops : list M) : M :=
  fun s => match ops with
           | [] => Some s
           | f :: rest => match f s with
                          | Some s1 => seq_ops rest s1
                          | None => None
                          end
           end.

Definition for_each {A} (l : list A) (f : A -> M) : M := seq_ops (map f l).

Definition upd_db (f : tx_db -> tx_db) : M := fun s =>
  Some (mk_updater (f (db_ s)) (watch_rows s) (failed_ s) (queued_queries_ s)
          (queued_get_indices_ s) (last_wakeup_ s) (pending s) (events s)).

(** A [tx_db] method that may fail its assertion. *)
Definition upd_db_opt (f : tx_db -> option tx_db) : M := fun s =>
  match f (db_ s) with
  | Some d => Some (mk_updater d (watch_rows s) (failed_ s) (queued_queries_ s)
                      (queued_get_indices_ s) (last_wakeup_ s) (pending s) (events s))
  | None => None
  end.

Definition emit (e : event) : M := fun s =>
  Some (mk_updater (db_ s) (watch_rows s) (failed_ s) (queued_queries_ s)
          (queued_get_indices_ s) (last_wakeup_ s) (pending s) (events s ++ [e])).

Definition set_failed (b : bool) : M := fun s =>
  Some (mk_updater (db_ s) (watch_rows s) b (queued_queries_ s)
          (queued_get_indices_ s) (last_wakeup_ s) (pending s) (events s)).

(** [++queued_queries_] / [--queued_queries_] on a [size_t]. *)
Definition add_queries (d : Z) : M := fun s =>
  Some (mk_updater (db_ s) (watch_rows s) (failed_ s) (to_size_t (queued_queries_ s + d))
          (queued_get_indices_ s) (last_wakeup_ s) (pending s) (events s)).

Definition add_get_indices (d : Z) : M := fun s =>
  Some (mk_updater (db_ s) (watch_rows s) (failed_ s) (queued_queries_ s)
          (to_size_t (queued_get_indices_ s + d)) (last_wakeup_ s) (pending s) (events s)).

(** Handing a query to the codec. *)
Definition dispatch (r : request) : M := fun s =>
  Some (mk_updater (db_ s) (watch_rows s) (failed_ s) (queued_queries_ s)
          (queued_get_indices_ s) (last_wakeup_ s) (pending s ++ [r]) (events s)).

Definition when (b : bool) (f : M) : M := if b then f else skip.

(** Read the state, then act. *)
Definition with_state (f : updater -> M) : M := fun s => f s s.

Definition abort : M := fun _ => None.

Definition set_last_wakeup (t : Z) : M := fun s =>
  Some (mk_updater (db_ s) (watch_rows s) (failed_ s) (queued_queries_ s)
          (queued_get_indices_ s) t (pending s) (events s)).

Definition set_watch_row (a : payment_address) (r : address_row) : M := fun s =>
  Some (mk_updater (db_ s) (<[a := r]> (watch_rows s)) (failed_ s) (queued_queries_ s)
          (queued_get_indices_ s) (last_wakeup_ s) (pending s) (events s)).

(** The server answered query [i]: the codec drops it from its queue
    before running the callback. *)
Definition remove_pending (i : nat) (s : updater) : updater :=
  mk_updater (db_ s) (watch_rows s) (failed_ s) (queued_queries_ s)
    (queued_get_indices_ s) (last_wakeup_ s) (delete i (pending s)) (events s).

Definition init_updater (db : tx_db) (steady : Z) : updater :=
  mk_updater db ∅ false 0 0 steady [] [].

(** [watching]: the watched addresses. *)
Definition watching (s : updater) : address_set :=
  foldl (fun out row => {[row.1]} ∪ out) ∅ (map_to_list (watch_rows s)).

(** The caller's requests to [tx_updater]. *)
Inductive user_op :=
| Start
| WatchAddress (address : payment_address) (poll : Z)
| Send (t : transaction_type)
| Wakeup.

Module Updater.
Section Ops.

Variable hash_transaction : transaction_type -> Z.

Definition query_done : M :=
  seq_ops [add_queries (-1);
           with_state (fun s => when (queued_queries_ s =? 0) (emit on_quiet))].

Definition get_height : M := dispatch RHeight.

Definition get_tx (tx_hash : Z) (want_inputs : bool) : M :=
  seq_ops [add_queries 1; dispatch (RTx tx_hash want_inputs)].

Definition get_tx_mem (tx_hash : Z) (want_inputs : bool) : M :=
  seq_ops [add_queries 1; dispatch (RTxMem tx_hash want_inputs)].

Definition get_index (tx_hash : Z) : M :=
  seq_ops [add_get_indices 1; dispatch (RIndex tx_hash)].

Definition send_tx (t : transaction_type) : M := dispatch (RBroadcast t).

Definition query_address (address : payment_address) : M :=
  seq_ops [add_queries 1; dispatch (RHistory address)].

Definition queue_get_indices : M :=
  with_state (fun s =>
    if negb (queued_get_indices_ s =? 0) then skip
    else for_each (foreach_forked (db_ s)) get_index).

(** [watch(tx_hash, want_inputs)], given what [get_inputs] does. *)
Definition watch_tx_with (get_inputs : transaction_type -> M) (now : Z)
    (tx_hash : Z) (want_inputs : bool) : M :=
  seq_ops [upd_db (fun d => reset_timestamp d now tx_hash);
           with_state (fun s =>
             if negb (has_tx (db_ s) tx_hash) then get_tx tx_hash want_inputs
             else when want_inputs (get_inputs (TxDb.get_tx (db_ s) tx_hash)))].

(** [get_inputs] calls [watch(hash, false)], which never reaches
    [get_inputs] again. *)
Definition get_inputs (now : Z) (t : transaction_type) : M :=
  for_each (tx_inputs t) (fun input =>
    watch_tx_with (fun _ => skip) now (op_hash (previous_output input)) false).

Definition watch_tx (now : Z) (tx_hash : Z) (want_inputs : bool) : M :=
  watch_tx_with (get_inputs now) now tx_hash want_inputs.

(** [if (db_.insert(tx, state)) callbacks_.on_add(tx);] *)
Definition insert_and_notify (now : Z) (t : transaction_type) (st : Z) : M :=
  with_state (fun s =>
    let '(added, d) := insert hash_transaction (db_ s) now t st in
    seq_ops [upd_db (fun _ => d); when added (emit (on_add t))]).

(** The [on_done] of [get_tx] and of [get_tx_mem]. *)
Definition tx_done (now : Z) (tx_hash : Z) (want_inputs : bool) (t : transaction_type) : M :=
  if negb (tx_hash =? hash_transaction t) then abort
  else seq_ops [insert_and_notify now t tx_state.unconfirmed;
                when want_inputs (get_inputs now t);
                get_index tx_hash;
                query_done].

(** The callback the codec runs when the server answers a request;
    [None] when the answer is not of the request's kind. *)
Definition callback (now : Z) (r : request) (resp : response) : option M :=
  match r, resp with
  | RHeight, Failure => Some (set_failed true)
  | RHeight, HeightDone height =>
      Some (with_state (fun s =>
        if negb (height =? last_height (db_ s)) then
          seq_ops [upd_db (fun d => at_height d height);
                   emit (on_height height);
                   with_state (fun s1 => for_each (foreach_unconfirmed (db_ s1)) get_index);
                   queue_get_indices]
        else skip))
  | RTx tx_hash want_inputs, Failure =>
      Some (seq_ops [get_tx_mem tx_hash want_inputs; query_done])
  | RTx tx_hash want_inputs, TxDone t => Some (tx_done now tx_hash want_inputs t)
  | RTxMem _ _, Failure => Some (seq_ops [set_failed true; query_done])
  | RTxMem tx_hash want_inputs, TxDone t => Some (tx_done now tx_hash want_inputs t)
  | RIndex tx_hash, Failure =>
      Some (seq_ops [upd_db_opt (fun d => unconfirmed d tx_hash);
                     add_get_indices (-1); queue_get_indices])
  | RIndex tx_hash, IndexDone bh _ =>
      Some (seq_ops [upd_db_opt (fun d => confirmed d tx_hash bh);
                     add_get_indices (-1); queue_get_indices])
  | RBroadcast t, Failure =>
      Some (seq_ops [upd_db (fun d => forget d (hash_transaction t)); emit (on_send false t)])
  | RBroadcast t, BroadcastDone =>
      Some (seq_ops [upd_db_opt (fun d => unconfirmed d (hash_transaction t));
                     emit (on_send true t)])
  | RHistory _, Failure => Some (seq_ops [set_failed true; query_done])
  | RHistory _, HistoryDone history =>
      Some (seq_ops [for_each history (fun hs =>
                       seq_ops [watch_tx now hs.1 true;
                                when (negb (hs.2 =? 0)) (watch_tx now hs.2 true)]);
                     query_done])
  | _, _ => None
  end.

Definition start : M :=
  seq_ops [get_height;
           with_state (fun s => for_each (foreach_unconfirmed (db_ s)) get_index);
           queue_get_indices;
           with_state (fun s => for_each (foreach_unsent (db_ s)) send_tx)].

Definition watch_address (steady : Z) (address : payment_address) (poll : Z) : M :=
  seq_ops [set_watch_row address (mk_address_row poll steady); query_address address].

Definition send (now : Z) (t : transaction_type) : M :=
  seq_ops [insert_and_notify now t tx_state.unsent; send_tx t].

(** [wakeup]; the sleep time it returns is not part of the state. *)
Definition wakeup (steady : Z) : M :=
  seq_ops [
    with_state (fun s =>
      when (30000 <=? steady - last_wakeup_ s)
        (seq_ops [get_height; set_last_wakeup steady]));
    with_state (fun s =>
      for_each (map_to_list (watch_rows s)) (fun ar =>
        when (poll_time ar.2 <=? steady - last_check ar.2)
          (seq_ops [set_watch_row ar.1 (mk_address_row (poll_time ar.2) steady);
                    query_address ar.1])));
    with_state (fun s => when (failed_ s) (seq_ops [emit on_fail; set_failed false]))].

Definition run_user (now steady : Z) (op : user_op) : M :=
  match op with
  | Start => start
  | WatchAddress a poll => watch_address steady a poll
  | Send t => send now t
  | Wakeup => wakeup steady
  end.

(** One step of the program: a call into the updater, or the server
    answering one of the outstanding queries (in any order). *)
Inductive step : updater -> updater -> Prop :=
| step_user now steady op s s' :
    run_user now steady op s = Some s' -> step s s'
| step_server now i r resp f s s' :
    pending s !! i = Some r ->
    callback now r resp = Some f ->
    f (remove_pending i s) = Some s' ->
    step s s'.

End Ops.
End Updater.

(** ** Properties used in the statements *)

(** A flagged row is a confirmed row. *)
Definition need_check_inv (db : tx_db) : Prop :=
  forall h r, rows db !! h = Some r -> need_check r = true -> state r = tx_state.confirmed.

(** A sequence of [insert] calls, each with its transaction and state. *)
Definition inserts (hash_transaction : transaction_type -> Z) (db : tx_db) (now : Z)
    (l : list (transaction_type * Z)) : tx_db :=
  foldl (fun d ts => (insert hash_transaction d now ts.1 ts.2).2) db l.

(** A store with one confirmed, unflagged row at height 100. *)
Definition fork_example_row : tx_row := mk_row empty_tx tx_state.confirmed 100 0 false.
Definition fork_example_db : tx_db := mk_db 0 {[ 1 := fork_example_row ]} 86400.

(** Rows and stores whose fields fit their C++ types. *)
Definition row_ok (r : tx_row) : Prop :=
  tx_ok (tx r) /\ 0 <= state r < 256 /\ fits 64 (block_height r) /\
  - 2 ^ 63 <= timestamp r < 2 ^ 63.

Definition db_ok (db : tx_db) : Prop :=
  fits 64 (last_height db) /\
  map_Forall (fun h r => fits 256 h /\ row_ok r) (rows db).

(** [serialize] skips the row ([timestamp + unconfirmed_timeout_ < now]). *)
Definition stale (db : tx_db) (now : Z) (r : tx_row) : bool :=
  timestamp r + unconfirmed_timeout db <? now.

(** A row as [load] rebuilds it from what [serialize] wrote: an
    unconfirmed row gets its timestamp as block height, any other row gets
    the load time as timestamp. *)
Definition restore_row (now : Z) (r : tx_row) : tx_row :=
  if tx_state.unconfirmed =? state r
  then mk_row (tx r) (state r) (to_size_t (timestamp r)) (timestamp r) (need_check r)
  else mk_row (tx r) (state r) (block_height r) now (need_check r).

(** The rows [load] rebuilds from the entries [L] that [serialize] went
    through, stale ones skipped. *)
Definition restore_rows (db : tx_db) (now_s now_l : Z) (acc : gmap Z tx_row)
    (L : list (Z * tx_row)) : gmap Z tx_row :=
  foldl (fun a hr => if stale db now_s hr.2 then a else <[hr.1 := restore_row now_l hr.2]> a)
        acc L.

(** The queries [queued_queries_] counts: [get_tx], [get_tx_mem] and
    [query_address] increment it when they hand them to the codec. *)
Definition counted (r : request) : bool :=
  match r with
  | RTx _ _ | RTxMem _ _ | RHistory _ => true
  | _ => false
  end.

Fixpoint n_counted (l : list request) : Z :=
  match l with
  | [] => 0
  | r :: l' => (if counted r then 1 else 0) + n_counted l'
  end.

(** An operation that only appends: events other than [on_quiet],
    requests to the codec, and one count per counted request. *)
Definition tame (f : M) : Prop :=
  forall s s', fits 64 (queued_queries_ s) -> f s = Some s' ->
  exists ev pd, events s' = events s ++ ev /\ (on_quiet ∉ ev) /\
    pending s' = pending s ++ pd /\
    queued_queries_ s' = to_size_t (queued_queries_ s + n_counted pd).

(** The same, followed by [query_done]. *)
Definition tame_done (f : M) : Prop :=
  forall s s', fits 64 (queued_queries_ s) -> f s = Some s' ->
  exists ev pd,
    events s' = events s ++ ev ++ (if queued_queries_ s' =? 0 then [on_quiet] else []) /\
    (on_quiet ∉ ev) /\ pending s' = pending s ++ pd /\
    queued_queries_ s' = to_size_t (queued_queries_ s + n_counted pd - 1).

(** A run: [watch_address] queries the history of address (1, 1); the
    server answers with an empty history. *)
Definition quiet_hash : transaction_type -> Z := fun _ => 0.
Definition quiet_s0 : updater := init_updater (new_tx_db 86400) 0.
Definition quiet_s1 : updater :=
  match Updater.run_user quiet_hash 0 0 (WatchAddress (1, 1) 1000) quiet_s0 with
  | Some s => s
  | None => quiet_s0
  end.
Definition quiet_s2 : updater :=
  match Updater.callback quiet_hash 0 (RHistory (1, 1)) (HistoryDone []) with
  | Some f => match f (remove_pending 0 quiet_s1) with
              | Some s => s
              | None => quiet_s1
              end
  | None => quiet_s1
  end.

(** A call of a [tx_db] method that changes the store ([load] apart). *)
Inductive db_op :=
| OpInsert (now : Z) (t : transaction_type) (st : Z)
| OpConfirmed (tx_hash block_height : Z)
| OpUnconfirmed (tx_hash : Z)
| OpForget (tx_hash : Z)
| OpResetTimestamp (now tx_hash : Z)
| OpAtHeight (height : Z).

Definition apply_op (hash_transaction : transaction_type -> Z) (o : db_op)
    (db : tx_db) : option tx_db :=
  match o with
  | OpInsert now t st => Some (insert hash_transaction db now t st).2
  | OpConfirmed h bh => confirmed db h bh
  | OpUnconfirmed h => unconfirmed db h
  | OpForget h => Some (forget db h)
  | OpResetTimestamp now h => Some (reset_timestamp db now h)
  | OpAtHeight height => Some (at_height db height)
  end.

(** The calls in order; [None] when one of them aborts. *)
Fixpoint apply_ops (hash_transaction : transaction_type -> Z) (ops : list db_op)
    (db : tx_db) : option tx_db :=
  match ops with
  | [] => Some db
  | o :: ops' =>
      match apply_op hash_transaction o db with
      | Some db' => apply_ops hash_transaction ops' db'
      | None => None
      end
  end.

(** Every row is stored under the hash of its transaction. *)
Definition keys_ok (hash_transaction : transaction_type -> Z) (db : tx_db) : Prop :=
  forall h r, rows db !! h = Some r -> hash_transaction (tx r) = h.

(** No row has [need_check] set. *)
Definition no_flags (db : tx_db) : Prop :=
  forall h r, rows db !! h = Some r -> need_check r = false.

(** The output an unspent-output entry names pays to one of [addresses]. *)
Definition utxo_pays (extract : list Z -> option payment_address) (db : tx_db)
    (addresses : address_set) (u : output_info_type) : Prop :=
  exists r o a, rows db !! op_hash u.1 = Some r /\
    tx_outputs (tx r) !! Z.to_nat (op_index u.1) = Some o /\
    extract (output_script o) = Some a /\ a ∈ addresses.

(** [wakeup] queries an address when its poll period has elapsed since
    its last check, and then records the check. *)
Definition poll_due (steady : Z) (r : address_row) : bool :=
  poll_time r <=? steady - last_check r.

Definition polled_row (steady : Z) (r : address_row) : address_row :=
  if poll_due steady r then mk_address_row (poll_time r) steady else r.

(** The queries [queued_get_indices_] counts: [get_index] increments it
    when it hands a [fetch_transaction_index] to the codec. *)
Definition is_index (r : request) : bool :=
  match r with RIndex _ => true | _ => false end.

Fixpoint n_index (l : list request) : Z :=
  match l with
  | [] => 0
  | r :: l' => (if is_index r then 1 else 0) + n_index l'
  end.

(** An operation that appends requests to the codec and adds one to
    [queued_get_indices_] per index query among them. *)
Definition itame (f : M) : Prop :=
  forall s s', fits 64 (queued_get_indices_ s) -> f s = Some s' ->
  exists pd, pending s' = pending s ++ pd /\
    queued_get_indices_ s' = to_size_t (queued_get_indices_ s + n_index pd).

(** A run: a store with one unconfirmed transaction, then [start], which
    sends an index query for it. *)
Definition index_db : tx_db :=
  mk_db 0 {[5 := mk_row TxDb.empty_tx tx_state.unconfirmed 0 0 false]} 86400.
Definition index_s1 : updater :=
  match Updater.run_user quiet_hash 0 0 Start (init_updater index_db 0) with
  | Some s => s
  | None => init_updater index_db 0
  end.

(** A store with one confirmed transaction whose [need_check] is set. *)
Definition forked_db : tx_db :=
  mk_db 0 {[5 := mk_row TxDb.empty_tx tx_state.confirmed 100 0 true]} 86400.

(** ** Lemmas *)

Lemma check_fork_id (height : Z) (db : tx_db) : check_fork height db = db.
Proof. reflexivity. Qed.

Lemma at_height_rows (db : tx_db) (height : Z) : rows (at_height db height) = rows db.
Proof. reflexivity. Qed.

(** C1: [check_fork] leaves [need_check] as it was: the row at height 100
    keeps [need_check = false] after [at_height 105], where the loop of
    [check_fork], were it iterating over the map entries themselves, would
    set it. *)
Theorem at_height_105_keeps_flag_clear :
  rows (at_height fork_example_db 105) !! 1 = Some fork_example_row /\
  need_check fork_example_row = false /\
  fork_prev_height 105 (set_last_height fork_example_db 105) = 100 /\
  rows (check_fork_by_reference 105 (set_last_height fork_example_db 105)) !! 1
    = Some (set_need_check fork_example_row).
Proof. vm_compute. repeat split; reflexivity. Qed.

(** C4: a blob starting with the legacy magic bytes (C3 61 AB 3E, the
    little-endian [0x3eab61c3]) loads with result [true] and leaves the
    store, rows and [last_height], exactly as it was. *)
Theorem load_legacy_magic_keeps_store (db : tx_db) (now : Z) (rest : list Z) :
  load db now (0xc3 :: 0x61 :: 0xab :: 0x3e :: rest) = (true, db).
Proof. reflexivity. Qed.

(** C4, refuted: the legacy blob does not empty a store that holds a
    row. *)
Lemma load_legacy_magic_nonempty :
  (load fork_example_db 0 [0xc3; 0x61; 0xab; 0x3e]).1 = true /\
  rows (load fork_example_db 0 [0xc3; 0x61; 0xab; 0x3e]).2 <> ∅.
Proof.
  split; [reflexivity|].
  cbn. apply map_non_empty_singleton.
Qed.

(** C10: a stored transaction without inputs is a spend for every
    address set, the empty one included. *)
Theorem is_spend_no_inputs (extract : list Z -> option payment_address)
    (db : tx_db) (tx_hash : Z) (r : tx_row) (addresses : address_set) :
  rows db !! tx_hash = Some r -> tx_inputs (tx r) = [] ->
  is_spend extract db tx_hash addresses = true.
Proof. intros Hr Hin. unfold is_spend. rewrite Hr, Hin. reflexivity. Qed.

Lemma is_spend_no_inputs_witness :
  rows fork_example_db !! 1 = Some fork_example_row /\
  tx_inputs (tx fork_example_row) = [] /\
  is_spend (fun _ => None) fork_example_db 1 ∅ = true.
Proof.
  split; [reflexivity|]. split; [reflexivity|].
  apply (is_spend_no_inputs (fun _ => None) fork_example_db 1 fork_example_row ∅);
    reflexivity.
Defined.

Lemma insert_dom (hf : transaction_type -> Z) (db : tx_db) (now : Z)
    (t : transaction_type) (st : Z) :
  dom (rows (insert hf db now t st).2) = {[hf t]} ∪ dom (rows db).
Proof.
  unfold insert. destruct (rows db !! hf t) eqn:E; cbn.
  - apply elem_of_dom_2 in E. set_solver.
  - by rewrite dom_insert_L.
Qed.

Lemma inserts_dom (hf : transaction_type -> Z) (db : tx_db) (now : Z)
    (l : list (transaction_type * Z)) :
  dom (rows (inserts hf db now l)) = dom (rows db) ∪ list_to_set (map (fun ts => hf ts.1) l).
Proof.
  revert db. induction l as [|[t st] l IH]; intros db; cbn.
  - set_solver.
  - unfold inserts in IH. rewrite IH, insert_dom. cbn. set_solver.
Qed.

(** C9: [insert] adds the row [(tx, state, 0, now, false)] under
    [hash_transaction(tx)] and returns [true] when the hash is new, and
    returns [false] leaving the store as it was otherwise; starting from an
    empty store, the number of rows after any sequence of inserts is the
    number of distinct hashes inserted. *)
Theorem insert_first_writer_wins (hash_transaction : transaction_type -> Z) :
  (forall (db : tx_db) (now : Z) (t : transaction_type) (st : Z),
     (rows db !! hash_transaction t = None /\
      insert hash_transaction db now t st =
        (true, set_rows db (<[hash_transaction t := mk_row t st 0 now false]> (rows db)))) \/
     (is_Some (rows db !! hash_transaction t) /\
      insert hash_transaction db now t st = (false, db))) /\
  (forall (timeout now : Z) (l : list (transaction_type * Z)),
     size (rows (inserts hash_transaction (new_tx_db timeout) now l)) =
     size (list_to_set (map (fun ts => hash_transaction ts.1) l) : gset Z)).
Proof.
  split.
  - intros db now t st. unfold insert.
    destruct (rows db !! hash_transaction t) eqn:E.
    + right. split; [eauto|reflexivity].
    + left. split; reflexivity.
  - intros timeout now l.
    rewrite <- size_dom, inserts_dom. cbn. rewrite dom_empty_L. f_equal. set_solver.
Qed.

Lemma point_eqb_true (a b : output_point) : point_eqb a b = true <-> a = b.
Proof.
  destruct a as [ha ia], b as [hb ib]. unfold point_eqb; cbn.
  rewrite andb_true_iff, !Z.eqb_eq. split.
  - intros [-> ->]. reflexivity.
  - intros E. injection E as -> ->. auto.
Qed.

Lemma set_find_false (spends : list output_point) (p : output_point) :
  set_find spends p = false <-> p ∉ spends.
Proof.
  unfold set_find. split.
  - intros Hf Hin. apply list_elem_of_In in Hin.
    assert (existsb (point_eqb p) spends = true) as Ht.
    { apply existsb_exists. exists p. split; [done|]. by apply point_eqb_true. }
    congruence.
  - intros Hn. destruct (existsb (point_eqb p) spends) eqn:E; [|done].
    apply existsb_exists in E as (q & Hq & Heq). apply point_eqb_true in Heq. subst q.
    exfalso. apply Hn. by apply list_elem_of_In.
Qed.

Lemma unspent_outputs_elem (spends : list output_point) (h i : Z)
    (outs : list transaction_output_type) (p : output_point) (v : Z) :
  (p, v) ∈ unspent_outputs spends h i outs <->
  (exists k o, outs !! k = Some o /\ p = mk_output_point h (i + Z.of_nat k) /\
               v = output_value o) /\ p ∉ spends.
Proof.
  revert i. induction outs as [|o outs IH]; intros i; cbn.
  - split; [intros Hin; inversion Hin|]. intros [(k & o & Hk & _) _]. done.
  - rewrite elem_of_app, IH. split.
    + intros [Hin|[(k & o' & Hk & -> & ->) Hn]].
      * destruct (set_find spends (mk_output_point h i)) eqn:E;
          [inversion Hin|].
        apply list_elem_of_singleton in Hin. injection Hin as -> ->.
        split; [|by apply set_find_false].
        exists 0%nat, o. split; [done|]. split; [f_equal; lia|done].
      * split; [|done]. exists (S k), o'. split; [done|]. split; [f_equal; lia|done].
    + intros [(k & o' & Hk & -> & ->) Hn]. destruct k as [|k]; cbn in Hk.
      * injection Hk as <-. left. replace (i + Z.of_nat 0) with i in * by lia.
        apply set_find_false in Hn. rewrite Hn. by apply list_elem_of_singleton.
      * right. split; [|done]. exists k, o'. split; [done|]. split; [f_equal; lia|done].
Qed.

Lemma unspent_outputs_points (spends : list output_point) (h i : Z)
    (outs : list transaction_output_type) :
  NoDup (map fst (unspent_outputs spends h i outs)) /\
  forall x, x ∈ unspent_outputs spends h i outs -> op_hash x.1 = h /\ i <= op_index x.1.
Proof.
  revert i. induction outs as [|o outs IH]; intros i; cbn.
  - split; [constructor|]. intros x Hx. inversion Hx.
  - destruct (IH (i + 1)) as [Hnd Hpts].
    destruct (set_find spends (mk_output_point h i)); cbn.
    + split; [done|]. intros x Hx. apply Hpts in Hx. lia.
    + split.
      * constructor; [|done]. intros Hin. apply list_elem_of_fmap in Hin as (x & Hx & Hin).
        apply Hpts in Hin. destruct x as [[xh xi] xv]; cbn in *. injection Hx as -> ->. lia.
      * intros x [->|Hx]%elem_of_cons; cbn; [lia|]. apply Hpts in Hx. lia.
Qed.

Lemma elem_of_concat {A} (x : A) (ls : list (list A)) :
  x ∈ concat ls <-> exists l, x ∈ l /\ l ∈ ls.
Proof.
  rewrite list_elem_of_In, in_concat. split.
  - intros (l & Hl & Hx). exists l. by rewrite !list_elem_of_In.
  - intros (l & Hx & Hl). exists l. by rewrite <- !list_elem_of_In.
Qed.

Lemma utxo_rows_nodup (spends : list output_point) (L : list (Z * tx_row)) :
  NoDup L.*1 ->
  NoDup (map fst (concat (map (fun hr => unspent_outputs spends hr.1 0 (tx_outputs (tx hr.2))) L))).
Proof.
  induction L as [|[h r] L IH]; cbn; intros Hnd; [constructor|].
  apply NoDup_cons in Hnd as [Hh Hnd].
  rewrite map_app. apply NoDup_app. split; [apply unspent_outputs_points|]. split; [|by apply IH].
  intros p Hp Hp'.
  apply list_elem_of_fmap in Hp as (x & -> & Hx). apply unspent_outputs_points in Hx as [Hx _].
  apply list_elem_of_fmap in Hp' as (y & Hxy & Hy). apply elem_of_concat in Hy as (l & Hy & Hl).
  apply list_elem_of_fmap in Hl as ([h' r'] & -> & Hin). cbn in Hy.
  apply unspent_outputs_points in Hy as [Hy _]. apply Hh.
  rewrite <- Hx, Hxy, Hy. apply list_elem_of_fmap. exists (h', r'). done.
Qed.

Lemma spends_elem (db : tx_db) (p : output_point) :
  p ∈ concat (map (fun hr => map previous_output (tx_inputs (tx hr.2))) (map_to_list (rows db)))
  <-> exists h r input, rows db !! h = Some r /\ input ∈ tx_inputs (tx r) /\
                       previous_output input = p.
Proof.
  rewrite elem_of_concat. split.
  - intros (l & Hp & Hl). apply list_elem_of_fmap in Hl as ([h r] & -> & Hin).
    apply elem_of_map_to_list in Hin. apply list_elem_of_fmap in Hp as (input & -> & Hi).
    exists h, r, input. done.
  - intros (h & r & input & Hr & Hi & <-). exists (map previous_output (tx_inputs (tx r))).
    split; [apply list_elem_of_fmap; eauto|].
    apply list_elem_of_fmap. exists (h, r). split; [done|]. by apply elem_of_map_to_list.
Qed.

(** C7: [get_utxos] lists exactly the outputs of all rows, as
    (point, value), whose point no input of any row spends, each point
    once; an empty store has none. *)
Theorem get_utxos_spec :
  (forall (db : tx_db) (p : output_point) (v : Z),
     (p, v) ∈ get_utxos db <->
     (exists h r k o, rows db !! h = Some r /\ tx_outputs (tx r) !! k = Some o /\
                      p = mk_output_point h (Z.of_nat k) /\ v = output_value o) /\
     ~ (exists h r input, rows db !! h = Some r /\ input ∈ tx_inputs (tx r) /\
                          previous_output input = p)) /\
  (forall db : tx_db, NoDup (get_utxos db) /\ NoDup (map fst (get_utxos db))) /\
  (forall timeout : Z, get_utxos (new_tx_db timeout) = []).
Proof.
  split; [|split].
  - intros db p v. unfold get_utxos. rewrite <- spends_elem, elem_of_concat. split.
    + intros (l & Hpv & Hl). apply list_elem_of_fmap in Hl as ([h r] & -> & Hin).
      apply elem_of_map_to_list in Hin. cbn in Hpv.
      apply unspent_outputs_elem in Hpv as [(k & o & Hk & -> & ->) Hn].
      split; [|done]. exists h, r, k, o. done.
    + intros [(h & r & k & o & Hr & Hk & -> & ->) Hn].
      exists (unspent_outputs
                (concat (map (fun hr => map previous_output (tx_inputs (tx hr.2)))
                             (map_to_list (rows db)))) h 0 (tx_outputs (tx r))).
      split.
      * apply unspent_outputs_elem. split; [|done]. exists k, o. done.
      * apply list_elem_of_fmap. exists (h, r). split; [done|]. by apply elem_of_map_to_list.
  - intros db. assert (NoDup (map fst (get_utxos db))) as Hnd.
    { apply utxo_rows_nodup, NoDup_fst_map_to_list. }
    split; [|done]. by apply (NoDup_fmap_1 fst).
  - reflexivity.
Qed.

Lemma seq_ops_cons (f : M) (ops : list M) (s : updater) :
  seq_ops (f :: ops) s = match f s with Some s1 => seq_ops ops s1 | None => None end.
Proof. reflexivity. Qed.

Lemma for_each_get_index_db (l : list Z) (s : updater) :
  exists s', for_each l Updater.get_index s = Some s' /\ db_ s' = db_ s.
Proof.
  revert s. induction l as [|h l IH]; intros s; cbn; [eauto|].
  edestruct IH as (s' & H1 & H2). exists s'. unfold for_each in H1.
  split; [exact H1|]. rewrite H2. reflexivity.
Qed.

Lemma queue_get_indices_db (s : updater) :
  exists s', Updater.queue_get_indices s = Some s' /\ db_ s' = db_ s.
Proof.
  unfold Updater.queue_get_indices, with_state.
  destruct (negb (queued_get_indices_ s =? 0)); [cbn; eauto|].
  apply for_each_get_index_db.
Qed.

Lemma unconfirmed_present (db : tx_db) (h : Z) (r : tx_row) :
  rows db !! h = Some r ->
  unconfirmed db h = Some (set_rows db (<[h := set_state r tx_state.unconfirmed]> (rows db))).
Proof.
  intros Hr. unfold unconfirmed. rewrite Hr.
  destruct (state r =? tx_state.confirmed); rewrite ?check_fork_id, Hr; reflexivity.
Qed.

(** C3: the error callback of [fetch_transaction_index] calls
    [tx_db::unconfirmed]; for a hash absent from the store its
    [BITCOIN_ASSERT] fails (the program aborts); for a stored hash the
    callback only sets that row's state to unconfirmed. *)
Theorem get_index_error_callback (hash_transaction : transaction_type -> Z)
    (now tx_hash : Z) (s : updater) :
  exists f, Updater.callback hash_transaction now (RIndex tx_hash) Failure = Some f /\
    (rows (db_ s) !! tx_hash = None -> f s = None) /\
    (forall r, rows (db_ s) !! tx_hash = Some r ->
       exists s', f s = Some s' /\
         rows (db_ s') = <[tx_hash := set_state r tx_state.unconfirmed]> (rows (db_ s)) /\
         last_height (db_ s') = last_height (db_ s)).
Proof.
  eexists. split; [reflexivity|]. split.
  - intros Hn. cbn. unfold upd_db_opt, unconfirmed. rewrite Hn. reflexivity.
  - intros r Hr. cbn -[Updater.queue_get_indices unconfirmed].
    unfold upd_db_opt at 1. rewrite (unconfirmed_present _ _ _ Hr).
    match goal with
    | |- context [Updater.queue_get_indices ?x] =>
        destruct (queue_get_indices_db x) as (s' & Hq & Hdb)
    end.
    rewrite Hq. exists s'. rewrite Hdb. cbn. split; [done|]. split; reflexivity.
Qed.

(** C3, refuted: the answer "error" to a [fetch_transaction_index]
    query for a hash the store does not hold aborts. *)
Lemma get_index_error_absent_aborts :
  match Updater.callback (fun _ => 0) 0 (RIndex 5) Failure with
  | Some f => f (init_updater (new_tx_db 86400) 0) = None
  | None => False
  end.
Proof. reflexivity. Qed.

(** A store with one confirmed row flagged for a fork check. *)
Definition flagged_row : tx_row := mk_row empty_tx tx_state.confirmed 100 0 true.
Definition flagged_db : tx_db := mk_db 100 {[ 1 := flagged_row ]} 86400.

(** A store with an unsent row flagged for a fork check, as a crafted
    blob can describe it. *)
Definition flagged_unsent_db : tx_db :=
  mk_db 100 {[ 1 := mk_row empty_tx tx_state.unsent 0 0 true ]} 86400.



(** *** The deserializer on what the serializer wrote *)

Lemma bind_Some {A B} (m : deser A) (k : A -> deser B) (it it' : list Z) (x : A) :
  m it = Some (x, it') -> bind m k it = k x it'.
Proof. intros H. unfold bind. rewrite H. reflexivity. Qed.

Lemma bind_None {A B} (m : deser A) (k : A -> deser B) (it : list Z) :
  m it = None -> bind m k it = None.
Proof. intros H. unfold bind. rewrite H. reflexivity. Qed.

Lemma length_write_le (n : nat) (x : Z) : length (write_le n x) = n.
Proof. revert x. induction n; intros x; cbn; [done|]. by rewrite IHn. Qed.

Lemma read_le_write_le (n : nat) (x : Z) (rest : list Z) :
  0 <= x < 2 ^ (8 * Z.of_nat n) ->
  read_le n (write_le n x ++ rest) = Some (x, rest).
Proof.
  revert x. induction n as [|n IH]; intros x Hx; cbn.
  - change (2 ^ (8 * Z.of_nat 0)) with 1 in Hx. unfold ret. f_equal. f_equal. lia.
  - unfold bind at 1. cbn.
    assert (2 ^ (8 * Z.of_nat (S n)) = 256 * 2 ^ (8 * Z.of_nat n)) as E.
    { rewrite Nat2Z.inj_succ, Z.mul_succ_r, Z.pow_add_r by lia. lia. }
    rewrite IH.
    + unfold ret. f_equal. f_equal. pose proof (Z.div_mod x 256 ltac:(lia)). lia.
    + split; [apply Z.div_pos; lia|]. apply Z.div_lt_upper_bound; lia.
Qed.

Lemma read_bytes_app (bs rest : list Z) :
  read_bytes (length bs) (bs ++ rest) = Some (bs, rest).
Proof.
  induction bs as [|b bs IH]; cbn; [done|]. rewrite (bind_Some _ _ _ rest bs IH). reflexivity.
Qed.

Lemma read_variable_uint_write (v : Z) (rest : list Z) :
  fits 64 v -> read_variable_uint (write_variable_uint v ++ rest) = Some (v, rest).
Proof.
  unfold fits; intros Hv. unfold write_variable_uint, read_variable_uint.
  destruct (v <? 0xfd) eqn:E1; [cbn; rewrite E1; reflexivity|].
  apply Z.ltb_ge in E1.
  destruct (v <=? 0xffff) eqn:E2.
  { cbn -[read_le write_le]. apply read_le_write_le. apply Z.leb_le in E2. cbn. lia. }
  apply Z.leb_gt in E2.
  destruct (v <=? 0xffffffff) eqn:E3.
  { cbn -[read_le write_le]. apply read_le_write_le. apply Z.leb_le in E3. cbn. lia. }
  cbn -[read_le write_le]. apply read_le_write_le. cbn. lia.
Qed.

Lemma load_script_save (s : list Z) (rest : list Z) :
  script_ok s -> load_script (save_script s ++ rest) = Some (s, rest).
Proof.
  intros [_ Hlen]. unfold load_script, save_script. rewrite <- app_assoc.
  rewrite (bind_Some _ _ _ (s ++ rest) (Z.of_nat (length s)))
    by (apply read_variable_uint_write; done).
  rewrite Nat2Z.id. apply read_bytes_app.
Qed.

Lemma read_list_concat {A} (m : deser A) (enc : A -> list Z) (P : A -> Prop)
    (l : list A) (rest : list Z) :
  (forall x rest', P x -> m (enc x ++ rest') = Some (x, rest')) ->
  Forall P l ->
  read_list (length l) m (concat (map enc l) ++ rest) = Some (l, rest).
Proof.
  intros Hm. induction l as [|x l IH]; intros Hl; cbn; [done|].
  apply Forall_cons in Hl as [Hx Hl].
  rewrite <- app_assoc. unfold bind at 1. rewrite Hm by done.
  rewrite (bind_Some _ _ _ rest l) by (apply IH; done). reflexivity.
Qed.

Ltac fits_pow := unfold fits, hash_size in *; cbn -[Z.pow] in *; lia.

Lemma load_input_save (i : transaction_input_type) (rest : list Z) :
  input_ok i -> load_input (save_input i ++ rest) = Some (i, rest).
Proof.
  destruct i as [[h idx] s sq]. intros (Hh & Hidx & Hs & Hsq).
  unfold load_input, save_input.
  cbn [previous_output op_hash op_index input_script sequence]. rewrite <- !app_assoc.
  rewrite (bind_Some _ _ _ _ h) by (apply read_le_write_le; fits_pow).
  rewrite (bind_Some _ _ _ _ idx) by (apply read_le_write_le; fits_pow).
  rewrite (bind_Some _ _ _ _ s) by (apply load_script_save; done).
  rewrite (bind_Some _ _ _ _ sq) by (apply read_le_write_le; fits_pow).
  reflexivity.
Qed.

Lemma load_output_save (o : transaction_output_type) (rest : list Z) :
  output_ok o -> load_output (save_output o ++ rest) = Some (o, rest).
Proof.
  destruct o as [v s]. intros (Hv & Hs).
  unfold load_output, save_output.
  cbn [output_value output_script]. rewrite <- !app_assoc.
  rewrite (bind_Some _ _ _ _ v) by (apply read_le_write_le; fits_pow).
  rewrite (bind_Some _ _ _ _ s) by (apply load_script_save; done).
  reflexivity.
Qed.

Lemma satoshi_load_save (t : transaction_type) (rest : list Z) :
  tx_ok t -> satoshi_load (satoshi_save t ++ rest) = Some (t, rest).
Proof.
  destruct t as [v ins outs lt]. intros (Hv & Hins & Hni & Houts & Hno & Hlt).
  unfold satoshi_load, satoshi_save.
  cbn [tx_version tx_inputs tx_outputs tx_locktime]. rewrite <- !app_assoc.
  rewrite (bind_Some _ _ _ _ v) by (apply read_le_write_le; fits_pow).
  rewrite (bind_Some _ _ _ _ (Z.of_nat (length ins))) by (apply read_variable_uint_write; done).
  rewrite Nat2Z.id.
  rewrite (bind_Some _ _ _ _ ins) by (apply (read_list_concat _ _ input_ok); [apply load_input_save|done]).
  rewrite (bind_Some _ _ _ _ (Z.of_nat (length outs))) by (apply read_variable_uint_write; done).
  rewrite Nat2Z.id.
  rewrite (bind_Some _ _ _ _ outs) by (apply (read_list_concat _ _ output_ok); [apply load_output_save|done]).
  rewrite (bind_Some _ _ _ _ lt) by (apply read_le_write_le; fits_pow).
  reflexivity.
Qed.

Lemma load_tx_step_save (t : transaction_type) (rest : list Z) :
  tx_ok t -> load_tx_step (satoshi_save t ++ rest) = Some (t, rest).
Proof.
  intros Ht. unfold load_tx_step. rewrite satoshi_load_save by done.
  unfold satoshi_raw_size. rewrite drop_app_length. reflexivity.
Qed.

(** *** Rows *)

Lemma to_time_t_size_t (x : Z) : - 2 ^ 63 <= x < 2 ^ 63 -> to_time_t (to_size_t x) = x.
Proof.
  intros Hx. unfold to_time_t, to_size_t. rewrite Z.mod_mod by lia.
  destruct (Z_le_gt_dec 0 x) as [Hp|Hn].
  - rewrite Z.mod_small by lia. destruct (x <? 2 ^ 63) eqn:E; [done|].
    apply Z.ltb_ge in E. lia.
  - assert (x mod 2 ^ 64 = x + 2 ^ 64) as ->.
    { rewrite <- (Z.mod_small (x + 2 ^ 64) (2 ^ 64)) by lia.
      rewrite <- Z.add_mod_idemp_r, Z.mod_same, Z.add_0_r by lia. reflexivity. }
    destruct (x + 2 ^ 64 <? 2 ^ 63) eqn:E; [apply Z.ltb_lt in E; lia|lia].
Qed.

Lemma to_size_t_fits (x : Z) : fits 64 (to_size_t x).
Proof. unfold fits, to_size_t. apply Z.mod_pos_bound. lia. Qed.

Lemma read_row_serialize_row (db : tx_db) (now_s now_l h : Z) (r : tx_row) (rest : list Z) :
  fits 256 h -> row_ok r -> stale db now_s r = false ->
  read_row now_l (serialize_row db now_s (h, r) ++ rest) =
  Some ((h, restore_row now_l r), rest).
Proof.
  intros Hh (Ht & Hst & Hbh & Hts) Hstale. unfold stale in Hstale.
  unfold serialize_row. rewrite Hstale. rewrite <- !app_assoc.
  unfold read_row.
  rewrite (bind_Some _ _ _ _ serial_tx) by reflexivity.
  cbv beta. rewrite Z.eqb_refl. cbn [negb].
  rewrite (bind_Some _ _ _ _ h) by (apply read_le_write_le; fits_pow).
  rewrite (bind_Some _ _ _ _ (tx r)) by (apply load_tx_step_save; done).
  rewrite (bind_Some _ _ _ _ (state r)) by (cbn; rewrite Z.mod_small by lia; reflexivity).
  set (height := if tx_state.unconfirmed =? state r then to_size_t (timestamp r)
                 else block_height r).
  assert (Hrd : read_le 8 (write_le 8 height ++ [if need_check r then 1 else 0] ++ rest)
                = Some (height, [if need_check r then 1 else 0] ++ rest)).
  { apply read_le_write_le. change (8 * Z.of_nat 8) with 64.
    unfold height. destruct (tx_state.unconfirmed =? state r);
      [apply to_size_t_fits|exact Hbh]. }
  rewrite (bind_Some _ _ _ _ _ Hrd).
  rewrite (bind_Some _ _ _ _ (if need_check r then 1 else 0)) by reflexivity.
  unfold ret. f_equal. f_equal. f_equal.
  unfold restore_row, height.
  assert (negb ((if need_check r then 1 else 0) =? 0) = need_check r) as ->
    by (destruct (need_check r); reflexivity).
  destruct (tx_state.unconfirmed =? state r); [|reflexivity].
  rewrite to_time_t_size_t by done. reflexivity.
Qed.

Lemma serialize_row_cons (db : tx_db) (now h : Z) (r : tx_row) :
  stale db now r = false -> exists b bs, serialize_row db now (h, r) = b :: bs.
Proof.
  intros Hs. unfold stale in Hs. unfold serialize_row. rewrite Hs. cbn. eauto.
Qed.

Lemma serialize_row_stale (db : tx_db) (now h : Z) (r : tx_row) :
  stale db now r = true -> serialize_row db now (h, r) = [].
Proof. intros Hs. unfold stale in Hs. unfold serialize_row. rewrite Hs. reflexivity. Qed.

Lemma load_rows_step (fuel : nat) (now : Z) (acc : gmap Z tx_row) (it : list Z) :
  it <> [] ->
  load_rows (S fuel) now acc it =
  match read_row now it with
  | Some ((h, r), it') => load_rows fuel now (<[h := r]> acc) it'
  | None => None
  end.
Proof. destruct it; [done|reflexivity]. Qed.

Lemma load_rows_serialized (db : tx_db) (now_s now_l : Z) (L : list (Z * tx_row)) :
  Forall (fun hr => fits 256 hr.1 /\ row_ok hr.2) L ->
  forall (acc : gmap Z tx_row) (tail : list Z) (fuel : nat),
  (length (concat (map (serialize_row db now_s) L)) + length tail <= fuel)%nat ->
  exists fuel', (length tail <= fuel')%nat /\
    load_rows fuel now_l acc (concat (map (serialize_row db now_s) L) ++ tail) =
    load_rows fuel' now_l (restore_rows db now_s now_l acc L) tail.
Proof.
  induction L as [|[h r] L IH]; intros HL acc tail fuel Hfuel.
  - exists fuel. cbn in *. split; [lia|reflexivity].
  - apply Forall_cons in HL as [[Hh Hr] HL]. cbn [map concat] in *.
    rewrite length_app in Hfuel.
    destruct (stale db now_s r) eqn:Hst.
    + rewrite serialize_row_stale in * by done. cbn [app length] in *.
      unfold restore_rows. cbn [foldl fst snd]. rewrite Hst. apply IH; [done|lia].
    + destruct (serialize_row_cons db now_s h r Hst) as (b & bs & Hbs).
      rewrite Hbs in Hfuel. cbn [length] in Hfuel.
      destruct fuel as [|fuel]; [lia|].
      rewrite <- app_assoc, load_rows_step by (rewrite Hbs; discriminate).
      rewrite read_row_serialize_row by done.
      unfold restore_rows. cbn [foldl fst snd]. rewrite Hst. apply IH; [done|lia].
Qed.

Lemma restore_rows_cons (db : tx_db) (now_s now_l h : Z) (r : tx_row)
    (L : list (Z * tx_row)) (acc : gmap Z tx_row) :
  restore_rows db now_s now_l acc ((h, r) :: L) =
  restore_rows db now_s now_l
    (if stale db now_s r then acc else <[h := restore_row now_l r]> acc) L.
Proof. reflexivity. Qed.

Lemma restore_rows_notin (db : tx_db) (now_s now_l : Z) (L : list (Z * tx_row))
    (acc : gmap Z tx_row) (k : Z) :
  k ∉ L.*1 -> restore_rows db now_s now_l acc L !! k = acc !! k.
Proof.
  revert acc. induction L as [|[h r] L IH]; intros acc Hk; [done|].
  cbn in Hk. apply not_elem_of_cons in Hk as [Hkh Hk].
  rewrite restore_rows_cons, IH by done.
  destruct (stale db now_s r); [done|]. by rewrite lookup_insert_ne.
Qed.

Lemma restore_rows_in (db : tx_db) (now_s now_l : Z) (L : list (Z * tx_row))
    (acc : gmap Z tx_row) (k : Z) (r : tx_row) :
  NoDup L.*1 -> (k, r) ∈ L ->
  restore_rows db now_s now_l acc L !! k =
  if stale db now_s r then acc !! k else Some (restore_row now_l r).
Proof.
  revert acc. induction L as [|[h r'] L IH]; intros acc Hnd Hin;
    [by apply elem_of_nil in Hin|].
  cbn in Hnd. apply NoDup_cons in Hnd as [Hh Hnd].
  apply elem_of_cons in Hin as [Heq|Hin].
  - injection Heq as <- <-.
    rewrite restore_rows_cons, restore_rows_notin by done.
    destruct (stale db now_s r); [done|]. apply lookup_insert_eq.
  - assert (k ∈ L.*1) as Hk by (apply list_elem_of_fmap; exists (k, r); done).
    assert (h <> k) as Hne by (intros ->; done).
    rewrite restore_rows_cons, IH by done.
    destruct (stale db now_s r'), (stale db now_s r); rewrite ?lookup_insert_ne; done.
Qed.

Lemma load_serialize (db db0 : tx_db) (now_s now_l : Z) :
  db_ok db ->
  load db0 now_l (serialize db now_s) =
  (true, mk_db (last_height db)
               (restore_rows db now_s now_l ∅ (map_to_list (rows db)))
               (unconfirmed_timeout db0)).
Proof.
  intros [Hlh Hrows].
  assert (Forall (fun hr => fits 256 hr.1 /\ row_ok hr.2) (map_to_list (rows db))) as HL.
  { apply Forall_forall. intros [h r] Hin. apply elem_of_map_to_list in Hin.
    apply (Hrows h r Hin). }
  unfold load, serialize.
  rewrite read_le_write_le by (unfold serial_magic; cbn; lia).
  cbn [Z.eqb old_serial_magic serial_magic negb Pos.eqb].
  rewrite read_le_write_le by (change (8 * Z.of_nat 8) with 64; exact Hlh).
  destruct (load_rows_serialized db now_s now_l (map_to_list (rows db)) HL ∅ []
              (length (write_le 4 serial_magic ++ write_le 8 (last_height db) ++
                       concat (map (serialize_row db now_s) (map_to_list (rows db))))))
    as (fuel' & _ & Hl).
  { rewrite !length_app. cbn. lia. }
  rewrite app_nil_r in Hl. rewrite Hl. destruct fuel'; reflexivity.
Qed.

Lemma new_tx_db_ok (timeout : Z) : db_ok (new_tx_db timeout).
Proof. split; [unfold fits; cbn; lia|]. apply map_Forall_empty. Qed.

Lemma empty_tx_ok : tx_ok empty_tx.
Proof. unfold tx_ok, fits; cbn. repeat split; try constructor; lia. Qed.

Lemma fork_example_db_ok : db_ok fork_example_db.
Proof.
  split; [unfold fits; cbn; lia|]. apply map_Forall_singleton.
  split; [unfold fits; cbn; lia|].
  split; [apply empty_tx_ok|]. unfold fits, fork_example_row, tx_state.confirmed; cbn. lia.
Qed.

(** C2: [load] of what [serialize] wrote succeeds and restores
    [last_height]; every row whose timestamp is recent enough to be saved
    comes back with its transaction, state and [need_check], an unconfirmed
    row with its timestamp (and that timestamp as block height), any other
    row with its block height (and the load time as timestamp); an
    unconfirmed row older than the timeout is gone; no other row appears. *)
Theorem load_serialize_roundtrip (db db0 : tx_db) (now_s now_l : Z) :
  db_ok db ->
  (load db0 now_l (serialize db now_s)).1 = true /\
  last_height (load db0 now_l (serialize db now_s)).2 = last_height db /\
  (forall h r, rows db !! h = Some r ->
     now_s <= timestamp r + unconfirmed_timeout db ->
     rows (load db0 now_l (serialize db now_s)).2 !! h = Some (restore_row now_l r)) /\
  (forall h r, rows db !! h = Some r -> state r = tx_state.unconfirmed ->
     timestamp r + unconfirmed_timeout db < now_s ->
     rows (load db0 now_l (serialize db now_s)).2 !! h = None) /\
  (forall h r', rows (load db0 now_l (serialize db now_s)).2 !! h = Some r' ->
     exists r, rows db !! h = Some r /\ r' = restore_row now_l r).
Proof.
  intros Hok. rewrite (load_serialize db db0 now_s now_l Hok). cbn [fst snd rows last_height].
  pose proof (NoDup_fst_map_to_list (rows db)) as Hnd.
  split; [done|]. split; [done|]. split; [|split].
  - intros h r Hr Hfresh. rewrite (restore_rows_in _ _ _ _ _ h r Hnd)
      by (by apply elem_of_map_to_list).
    unfold stale. replace (timestamp r + unconfirmed_timeout db <? now_s) with false;
      [done|symmetry; apply Z.ltb_ge; lia].
  - intros h r Hr _ Hold. rewrite (restore_rows_in _ _ _ _ _ h r Hnd)
      by (by apply elem_of_map_to_list).
    unfold stale. replace (timestamp r + unconfirmed_timeout db <? now_s) with true;
      [done|symmetry; apply Z.ltb_lt; lia].
  - intros h r' Hr'. destruct (rows db !! h) as [r|] eqn:Hr.
    + rewrite (restore_rows_in _ _ _ _ _ h r Hnd) in Hr'
        by (by apply elem_of_map_to_list).
      exists r. split; [done|]. destruct (stale db now_s r); [done|].
      injection Hr' as <-. reflexivity.
    + rewrite restore_rows_notin in Hr'; [done|].
      intros Hin. apply list_elem_of_fmap in Hin as ([h' r] & Heq & Hin).
      cbn in Heq. subst h'. apply elem_of_map_to_list in Hin. congruence.
Qed.

Lemma load_serialize_roundtrip_witness :
  db_ok fork_example_db /\
  (load (new_tx_db 86400) 5 (serialize fork_example_db 0)).1 = true.
Proof.
  split; [exact fork_example_db_ok|].
  exact (proj1 (load_serialize_roundtrip fork_example_db (new_tx_db 86400) 0 5
                  fork_example_db_ok)).
Defined.

(** C2, refuted: the round trip does not give back the store. The
    confirmed row saved at time 0 and loaded at time 1 comes back with
    timestamp 1; saved at time 100000 it does not come back at all, as
    [serialize] skips every row older than the timeout, whatever its
    state. *)
Lemma load_serialize_not_identity :
  rows fork_example_db !! 1 = Some (mk_row empty_tx tx_state.confirmed 100 0 false) /\
  rows (load (new_tx_db 86400) 1 (serialize fork_example_db 0)).2 !! 1 =
    Some (mk_row empty_tx tx_state.confirmed 100 1 false) /\
  rows (load (new_tx_db 86400) 100000 (serialize fork_example_db 100000)).2 !! 1 = None.
Proof. split; [|split]; vm_compute; reflexivity. Qed.

(** *** need_check *)

Lemma need_check_inv_insert (hf : transaction_type -> Z) (db : tx_db) (now : Z)
    (t : transaction_type) (st : Z) :
  need_check_inv db -> need_check_inv (insert hf db now t st).2.
Proof.
  intros Hinv. unfold insert. destruct (rows db !! hf t); [done|].
  intros h r Hr Hnc. cbn in Hr. apply lookup_insert_Some in Hr as [[_ <-]|[_ Hr]].
  - discriminate Hnc.
  - by apply (Hinv h).
Qed.

Lemma need_check_inv_confirmed (db : tx_db) (tx_hash bh : Z) (db' : tx_db) :
  need_check_inv db -> confirmed db tx_hash bh = Some db' -> need_check_inv db'.
Proof.
  intros Hinv Hc. unfold confirmed in Hc.
  destruct (rows db !! tx_hash) as [r|] eqn:Hr; [|discriminate].
  rewrite !check_fork_id in Hc.
  assert ((if (state r =? tx_state.confirmed) && negb (block_height r =? bh) then db else db) = db)
    as Hif by (destruct (_ && _); reflexivity).
  rewrite Hif, Hr in Hc. injection Hc as <-.
  intros h r' Hr' Hnc. cbn in Hr'. apply lookup_insert_Some in Hr' as [[_ <-]|[_ Hr']].
  - reflexivity.
  - by apply (Hinv h).
Qed.

Lemma need_check_inv_forget (db : tx_db) (tx_hash : Z) :
  need_check_inv db -> need_check_inv (forget db tx_hash).
Proof.
  intros Hinv h r Hr. cbn in Hr. apply lookup_delete_Some in Hr as [_ Hr]. by apply (Hinv h).
Qed.

Lemma need_check_inv_reset_timestamp (db : tx_db) (now tx_hash : Z) :
  need_check_inv db -> need_check_inv (reset_timestamp db now tx_hash).
Proof.
  intros Hinv. unfold reset_timestamp. destruct (rows db !! tx_hash) as [r0|] eqn:Hr0; [|done].
  intros h r Hr Hnc. cbn in Hr. apply lookup_insert_Some in Hr as [[<- <-]|[_ Hr]].
  - cbn in *. by apply (Hinv tx_hash r0 Hr0).
  - by apply (Hinv h).
Qed.

(** C5: [insert], [confirmed], [forget], [reset_timestamp],
    [check_fork] and [at_height] keep every flagged row confirmed, and so
    does loading what [serialize] wrote from such a store. *)
Theorem need_check_inv_preserved (hash_transaction : transaction_type -> Z) :
  (forall db now t st, need_check_inv db ->
     need_check_inv (insert hash_transaction db now t st).2) /\
  (forall db tx_hash bh db', need_check_inv db ->
     confirmed db tx_hash bh = Some db' -> need_check_inv db') /\
  (forall db tx_hash, need_check_inv db -> need_check_inv (forget db tx_hash)) /\
  (forall db now tx_hash, need_check_inv db ->
     need_check_inv (reset_timestamp db now tx_hash)) /\
  (forall db height, need_check_inv db -> need_check_inv (check_fork height db)) /\
  (forall db height, need_check_inv db -> need_check_inv (at_height db height)) /\
  (forall db db0 now_s now_l, need_check_inv db -> db_ok db ->
     need_check_inv (load db0 now_l (serialize db now_s)).2).
Proof.
  split; [apply need_check_inv_insert|].
  split; [apply need_check_inv_confirmed|].
  split; [apply need_check_inv_forget|].
  split; [apply need_check_inv_reset_timestamp|].
  split; [intros db height Hinv; by rewrite check_fork_id|].
  split; [intros db height Hinv; unfold at_height; rewrite check_fork_id;
          intros h r Hr; by apply (Hinv h)|].
  intros db db0 now_s now_l Hinv Hok h r' Hr' Hnc.
  destruct (load_serialize_roundtrip db db0 now_s now_l Hok) as (_ & _ & _ & _ & Hback).
  destruct (Hback h r' Hr') as (r & Hr & ->).
  unfold restore_row in *. destruct (tx_state.unconfirmed =? state r); cbn in *;
    by apply (Hinv h).
Qed.

(** C5, refuted: [unconfirmed] on a flagged confirmed row leaves an
    unconfirmed row still flagged, and [load] of a blob describing an
    unsent flagged row stores it as it is. *)
Lemma need_check_inv_broken :
  need_check_inv flagged_db /\
  match unconfirmed flagged_db 1 with
  | Some d => ~ need_check_inv d
  | None => False
  end /\
  need_check_inv (new_tx_db 86400) /\
  ~ need_check_inv (load (new_tx_db 86400) 0 (serialize flagged_unsent_db 0)).2.
Proof.
  split; [|split; [|split]].
  - intros h r Hr _. unfold flagged_db in Hr; cbn in Hr.
    apply lookup_singleton_Some in Hr as [_ <-]. reflexivity.
  - rewrite (unconfirmed_present flagged_db 1 flagged_row); [|reflexivity]. intros Hinv.
    assert (state (set_state flagged_row tx_state.unconfirmed) = tx_state.confirmed) as E.
    { apply (Hinv 1); [|reflexivity]. apply lookup_insert_eq. }
    discriminate E.
  - intros h r Hr. cbn in Hr. by rewrite lookup_empty in Hr.
  - intros Hinv.
    assert (rows (load (new_tx_db 86400) 0 (serialize flagged_unsent_db 0)).2 !! 1 =
            Some (mk_row empty_tx tx_state.unsent 0 0 true)) as Hr by (vm_compute; reflexivity).
    specialize (Hinv 1 _ Hr eq_refl). discriminate Hinv.
Qed.

(** *** load: errors and atomicity *)

(** A reader that succeeds on a prefix of its input succeeds on the whole
    input the same way, leaving the extra bytes unread. *)
Definition extends {A} (m : deser A) : Prop :=
  forall p q x r, m p = Some (x, r) -> m (p ++ q) = Some (x, r ++ q).

Lemma ext_ret {A} (x : A) : extends (ret x).
Proof. intros p q y r H. unfold ret in *. injection H as <- <-. reflexivity. Qed.

Lemma ext_fail {A} : extends (@fail A).
Proof. intros p q y r H. discriminate H. Qed.

Lemma ext_bind {A B} (m : deser A) (k : A -> deser B) :
  extends m -> (forall x, extends (k x)) -> extends (bind m k).
Proof.
  intros Hm Hk p q y r H. unfold bind in *.
  destruct (m p) as [[x p']|] eqn:E; [|discriminate].
  rewrite (Hm _ _ _ _ E). by apply Hk.
Qed.

Lemma ext_read_byte : extends read_byte.
Proof. intros [|b p] q x r H; [discriminate|]. cbn in *. by injection H as <- <-. Qed.

Create HintDb deser_ext.
#[local] Hint Resolve ext_ret ext_fail ext_read_byte : deser_ext.

Ltac ext_chain :=
  repeat first [ solve [eauto with deser_ext]
               | apply ext_bind; [| intro] ].

Lemma ext_read_le (n : nat) : extends (read_le n).
Proof. induction n; cbn; ext_chain. Qed.
#[local] Hint Resolve ext_read_le : deser_ext.

Lemma ext_read_bytes (n : nat) : extends (read_bytes n).
Proof. induction n; cbn; ext_chain. Qed.
#[local] Hint Resolve ext_read_bytes : deser_ext.

Lemma ext_read_list {A} (m : deser A) (n : nat) : extends m -> extends (read_list n m).
Proof. intros Hm. induction n; cbn; ext_chain. Qed.

Lemma ext_read_variable_uint : extends read_variable_uint.
Proof.
  unfold read_variable_uint. apply ext_bind; [apply ext_read_byte|intros b].
  destruct (b <? 0xfd); [apply ext_ret|].
  destruct (b =? 0xfd); [apply ext_read_le|].
  destruct (b =? 0xfe); apply ext_read_le.
Qed.
#[local] Hint Resolve ext_read_variable_uint : deser_ext.

Lemma ext_load_script : extends load_script.
Proof. unfold load_script. ext_chain. Qed.
#[local] Hint Resolve ext_load_script : deser_ext.

Lemma ext_load_input : extends load_input.
Proof. unfold load_input, read_hash. ext_chain. Qed.

Lemma ext_load_output : extends load_output.
Proof. unfold load_output. ext_chain. Qed.

Lemma ext_satoshi_load : extends satoshi_load.
Proof.
  unfold satoshi_load. apply ext_bind; [apply ext_read_le|intros v].
  apply ext_bind; [apply ext_read_variable_uint|intros ni].
  apply ext_bind; [apply ext_read_list, ext_load_input|intros ins].
  apply ext_bind; [apply ext_read_variable_uint|intros no].
  apply ext_bind; [apply ext_read_list, ext_load_output|intros outs].
  apply ext_bind; [apply ext_read_le|intros lt]. apply ext_ret.
Qed.

(** [load_tx_step] moves the iterator by [satoshi_raw_size]; followed by
    a reader that needs at least one byte, the pair extends. *)
Lemma ext_load_tx_step_bind {B} (k : transaction_type -> deser B) :
  (forall t, extends (k t)) -> (forall t, k t [] = None) ->
  extends (bind load_tx_step k).
Proof.
  intros Hk Hnil p q y r H. unfold bind, load_tx_step in *.
  destruct (satoshi_load p) as [[t p']|] eqn:E; [|discriminate].
  rewrite (ext_satoshi_load _ _ _ _ E).
  destruct (decide (length p <= satoshi_raw_size t)%nat) as [Hle|Hgt].
  - rewrite skipn_all2 in H by exact Hle. by rewrite Hnil in H.
  - rewrite skipn_app. replace (satoshi_raw_size t - length p)%nat with O by lia.
    cbn [skipn]. by apply Hk.
Qed.

Lemma read_row_ext (now : Z) : extends (read_row now).
Proof.
  unfold read_row. apply ext_bind; [apply ext_read_byte|intros tag].
  destruct (negb _); [apply ext_fail|].
  apply ext_bind; [unfold read_hash; apply ext_read_le|intros hash].
  apply ext_load_tx_step_bind; [intros t; ext_chain|intros t; reflexivity].
Qed.

Lemma read_le_length (n : nat) (it r : list Z) (v : Z) :
  read_le n it = Some (v, r) -> length it = (n + length r)%nat.
Proof.
  revert it v. induction n as [|n IH]; intros it v H; cbn in H.
  - unfold ret in H. by injection H as _ <-.
  - unfold bind in H. destruct it as [|b it]; [discriminate|]. cbn in H.
    destruct (read_le n it) as [[x it']|] eqn:E; [|discriminate].
    unfold ret in H. injection H as _ <-. cbn. f_equal. by apply (IH it x).
Qed.

Lemma read_le_short (n : nat) (it : list Z) :
  (length it < n)%nat -> read_le n it = None.
Proof.
  intros Hlt. destruct (read_le n it) as [[v r]|] eqn:E; [|done].
  apply read_le_length in E. lia.
Qed.

Lemma load_rows_read_row_None (fuel : nat) (now : Z) (acc : gmap Z tx_row) (it : list Z) :
  it <> [] -> (length it <= fuel)%nat -> read_row now it = None ->
  load_rows fuel now acc it = None.
Proof.
  intros Hne Hf Hr. destruct fuel as [|fuel].
  - destruct it; [done|cbn in Hf; lia].
  - rewrite load_rows_step by exact Hne. by rewrite Hr.
Qed.

Lemma read_row_nonempty (now : Z) (c : list Z) (x : Z * tx_row) (r : list Z) :
  read_row now c = Some (x, r) -> c <> [].
Proof. intros H ->. unfold read_row, bind, read_byte in H. discriminate H. Qed.

Lemma read_le_exact (n : nat) (p q : list Z) :
  length p = n -> exists v, read_le n (p ++ q) = Some (v, q).
Proof.
  revert p. induction n as [|n IH]; intros p Hp.
  - destruct p; [|discriminate]. exists 0. reflexivity.
  - destruct p as [|b p]; [discriminate|]. injection Hp as Hp.
    destruct (IH p Hp) as [v Hv]. exists (b + 256 * v).
    cbn [read_le app]. rewrite (bind_Some _ _ _ _ b) by reflexivity.
    rewrite (bind_Some _ _ _ _ v) by exact Hv. reflexivity.
Qed.

(** The loop of [load] over complete rows: it reads them in order, each
    one into the map, and goes on with what follows. *)
Lemma load_rows_chunks (now : Z) (cs : list (list Z)) (hrs : list (Z * tx_row)) :
  Forall2 (fun c hr => read_row now c = Some (hr, [])) cs hrs ->
  forall (acc : gmap Z tx_row) (tail : list Z) (fuel : nat),
  (length (concat cs) + length tail <= fuel)%nat ->
  exists fuel', (length tail <= fuel')%nat /\
    load_rows fuel now acc (concat cs ++ tail) = load_rows fuel' now (insert_rows acc hrs) tail.
Proof.
  induction 1 as [|c hr cs hrs Hc Hcs IH]; intros acc tail fuel Hf.
  - exists fuel. cbn in *. split; [lia|reflexivity].
  - cbn [concat] in *. rewrite <- app_assoc. rewrite length_app in Hf.
    pose proof (read_row_nonempty now c hr [] Hc) as Hne.
    destruct fuel as [|fuel]; [destruct c; [done|cbn in Hf; lia]|].
    rewrite load_rows_step by (destruct c; [done|discriminate]).
    rewrite (read_row_ext now c _ hr [] Hc). destruct hr as [h r]. cbn [app].
    apply IH. destruct c; [done|]. cbn in Hf. lia.
Qed.

(** [load] of a current header followed by complete rows and more bytes. *)
Lemma load_chunks_tail (db : tx_db) (now lh : Z) (cs : list (list Z))
    (hrs : list (Z * tx_row)) (tail : list Z) :
  fits 64 lh -> Forall2 (fun c hr => read_row now c = Some (hr, [])) cs hrs ->
  exists fuel', (length tail <= fuel')%nat /\
  load db now (write_le 4 serial_magic ++ write_le 8 lh ++ concat cs ++ tail) =
  match load_rows fuel' now (insert_rows ∅ hrs) tail with
  | None => (false, db)
  | Some (rs, _) => (true, mk_db lh rs (unconfirmed_timeout db))
  end.
Proof.
  intros Hlh Hcs. unfold load.
  rewrite read_le_write_le by (unfold serial_magic; cbn; lia).
  cbn [Z.eqb old_serial_magic serial_magic negb Pos.eqb].
  rewrite read_le_write_le by (change (8 * Z.of_nat 8) with 64; exact Hlh).
  match goal with |- context [load_rows ?F _ _ _] =>
    destruct (load_rows_chunks now cs hrs Hcs ∅ tail F) as (fuel' & Hf & Hl)
  end.
  { rewrite !length_app, !length_write_le. lia. }
  exists fuel'. split; [exact Hf|]. by rewrite Hl.
Qed.

Lemma load_chunks_bad_tail (db : tx_db) (now lh : Z) (cs : list (list Z))
    (hrs : list (Z * tx_row)) (tail : list Z) :
  fits 64 lh -> Forall2 (fun c hr => read_row now c = Some (hr, [])) cs hrs ->
  tail <> [] -> read_row now tail = None ->
  load db now (write_le 4 serial_magic ++ write_le 8 lh ++ concat cs ++ tail) = (false, db).
Proof.
  intros Hlh Hcs Hne Hr. destruct (load_chunks_tail db now lh cs hrs tail Hlh Hcs) as (f & Hf & ->).
  by rewrite load_rows_read_row_None.
Qed.

Lemma load_chunks_complete (db : tx_db) (now lh : Z) (cs : list (list Z))
    (hrs : list (Z * tx_row)) :
  fits 64 lh -> Forall2 (fun c hr => read_row now c = Some (hr, [])) cs hrs ->
  load db now (write_le 4 serial_magic ++ write_le 8 lh ++ concat cs) =
  (true, mk_db lh (insert_rows ∅ hrs) (unconfirmed_timeout db)).
Proof.
  intros Hlh Hcs. destruct (load_chunks_tail db now lh cs hrs [] Hlh Hcs) as (f & _ & Hl).
  rewrite app_nil_r in Hl. rewrite Hl. by destruct f.
Qed.

(** C6: [load] is all or nothing.  When it returns false the store is
    the one before the call; when it returns true on the current magic the
    rows and height are the blob's, whatever the store was.  It returns
    false on an unknown magic and on a header cut short; after any
    sequence of complete rows, it returns false on a row tag other than
    [0x42], on transaction bytes [satoshi_load] refuses, and on a blob
    that ends inside a row.  A blob cut between two rows loads, with the
    rows before the cut only. *)
Theorem load_all_or_nothing :
  (forall db now data, (load db now data).1 = false -> (load db now data).2 = db) /\
  (forall db now data d it, read_le 4 data = Some (serial_magic, it) ->
     load db now data = (true, d) ->
     forall db', load db' now data = (true, mk_db (last_height d) (rows d) (unconfirmed_timeout db'))) /\
  (forall db now m rest, fits 32 m -> m <> old_serial_magic -> m <> serial_magic ->
     load db now (write_le 4 m ++ rest) = (false, db)) /\
  (forall db now data, (length data < 4)%nat -> load db now data = (false, db)) /\
  (forall db now p, (length p < 8)%nat -> load db now (write_le 4 serial_magic ++ p) = (false, db)) /\
  (forall db now lh cs hrs b rest, fits 64 lh ->
     Forall2 (fun c hr => read_row now c = Some (hr, [])) cs hrs -> b <> serial_tx ->
     load db now (write_le 4 serial_magic ++ write_le 8 lh ++ concat cs ++ b :: rest) = (false, db)) /\
  (forall db now lh cs hrs hb t, fits 64 lh ->
     Forall2 (fun c hr => read_row now c = Some (hr, [])) cs hrs ->
     length hb = hash_size -> satoshi_load t = None ->
     load db now (write_le 4 serial_magic ++ write_le 8 lh ++ concat cs ++ serial_tx :: hb ++ t) =
     (false, db)) /\
  (forall db now lh cs hrs c hr k, fits 64 lh ->
     Forall2 (fun c hr => read_row now c = Some (hr, [])) cs hrs ->
     read_row now c = Some (hr, []) -> (0 < k < length c)%nat ->
     load db now (write_le 4 serial_magic ++ write_le 8 lh ++ concat cs ++ take k c) = (false, db)) /\
  (forall db now lh cs hrs ds hrs', fits 64 lh ->
     Forall2 (fun c hr => read_row now c = Some (hr, [])) cs hrs ->
     Forall2 (fun c hr => read_row now c = Some (hr, [])) ds hrs' ->
     load db now (write_le 4 serial_magic ++ write_le 8 lh ++ concat (cs ++ ds)) =
       (true, mk_db lh (insert_rows ∅ (hrs ++ hrs')) (unconfirmed_timeout db)) /\
     load db now (write_le 4 serial_magic ++ write_le 8 lh ++ concat cs) =
       (true, mk_db lh (insert_rows ∅ hrs) (unconfirmed_timeout db))).
Proof.
  split; [|split; [|split; [|split; [|split; [|split; [|split; [|split]]]]]]].
  - intros db now data. unfold load.
    destruct (read_le 4 data) as [[magic it]|]; [|done].
    destruct (old_serial_magic =? magic); [done|].
    destruct (negb _); [done|].
    destruct (read_le 8 it) as [[lh it2]|]; [|done].
    destruct (load_rows _ _ _ _) as [[rs ?]|]; done.
  - intros db now data d it Hm Hl db'. unfold load in *. rewrite Hm in *.
    cbn [Z.eqb old_serial_magic serial_magic negb Pos.eqb] in *.
    destruct (read_le 8 it) as [[lh it2]|]; [|discriminate].
    destruct (load_rows _ _ _ _) as [[rs ?]|]; [|discriminate].
    injection Hl as <-. reflexivity.
  - intros db now m rest Hm Hold Hnew. unfold load.
    rewrite read_le_write_le by (unfold fits in Hm; cbn; lia).
    rewrite (proj2 (Z.eqb_neq old_serial_magic m)) by congruence.
    rewrite (proj2 (Z.eqb_neq serial_magic m)) by congruence. reflexivity.
  - intros db now data Hlt. unfold load. by rewrite read_le_short.
  - intros db now p Hlt. unfold load.
    rewrite read_le_write_le by (unfold serial_magic; cbn; lia).
    cbn [Z.eqb old_serial_magic serial_magic negb Pos.eqb].
    by rewrite read_le_short.
  - intros db now lh cs hrs b rest Hlh Hcs Hb.
    apply (load_chunks_bad_tail db now lh cs hrs); [done|done|done|].
    unfold read_row. rewrite (bind_Some _ _ _ _ b) by reflexivity.
    apply Z.eqb_neq in Hb. cbv beta. rewrite Hb. reflexivity.
  - intros db now lh cs hrs hb t Hlh Hcs Hhb Ht.
    apply (load_chunks_bad_tail db now lh cs hrs); [done|done|done|].
    unfold read_row. rewrite (bind_Some _ _ _ _ serial_tx) by reflexivity.
    cbv beta. rewrite Z.eqb_refl. cbn [negb].
    destruct (read_le_exact hash_size hb t Hhb) as [v Hv].
    rewrite (bind_Some _ _ _ _ v) by exact Hv.
    apply bind_None. unfold load_tx_step. by rewrite Ht.
  - intros db now lh cs hrs c hr k Hlh Hcs Hc Hk.
    apply (load_chunks_bad_tail db now lh cs hrs); [done|done| |].
    + intros Hnil. apply (f_equal (@length Z)) in Hnil. rewrite length_take in Hnil.
      cbn in Hnil. lia.
    + destruct (read_row now (take k c)) as [[x r]|] eqn:E; [|done]. exfalso.
      apply (read_row_ext now (take k c) (drop k c)) in E.
      rewrite take_drop, Hc in E. injection E as _ Hnil.
      apply (f_equal (@length Z)) in Hnil. rewrite length_app, length_drop in Hnil.
      cbn in Hnil. lia.
  - intros db now lh cs hrs ds hrs' Hlh Hcs Hds. split.
    + apply load_chunks_complete; [done|]. by apply Forall2_app.
    + by apply load_chunks_complete.
Qed.

(** C6, refuted: a blob cut at a row boundary loads.  The first 12 bytes
    of what [serialize] wrote from [fork_example_db] (its header only) make
    [load] return true and empty a store that held a row. *)
Lemma load_truncated_at_row_boundary :
  (12 < length (serialize fork_example_db 0))%nat /\
  rows fork_example_db !! 1 = Some fork_example_row /\
  (load fork_example_db 0 (take 12 (serialize fork_example_db 0))).1 = true /\
  rows (load fork_example_db 0 (take 12 (serialize fork_example_db 0))).2 = ∅.
Proof.
  split; [apply Nat.ltb_lt; vm_compute; reflexivity|].
  split; [|split]; vm_compute; reflexivity.
Qed.

(** *** queued_queries_ and on_quiet *)

Lemma n_counted_app (l1 l2 : list request) :
  n_counted (l1 ++ l2) = n_counted l1 + n_counted l2.
Proof. induction l1 as [|r l1 IH]; cbn; [done|]. rewrite IH. lia. Qed.

Lemma n_counted_nonneg (l : list request) : 0 <= n_counted l.
Proof. induction l as [|r l IH]; cbn; [lia|]. destruct (counted r); lia. Qed.

Lemma n_counted_delete (l : list request) (i : nat) (r : request) :
  l !! i = Some r ->
  n_counted l = n_counted (delete i l) + (if counted r then 1 else 0).
Proof.
  intros Hi. rewrite <- (take_drop_middle l i r Hi) at 1.
  rewrite delete_take_drop, !n_counted_app. cbn. lia.
Qed.

Lemma to_size_t_small (x : Z) : fits 64 x -> to_size_t x = x.
Proof. intros Hx. unfold to_size_t, fits in *. by apply Z.mod_small. Qed.

Lemma to_size_t_add (a b : Z) : to_size_t (to_size_t a + b) = to_size_t (a + b).
Proof. unfold to_size_t. apply Z.add_mod_idemp_l. lia. Qed.

Create HintDb tame.

(** Operations that leave events, codec queue and counter alone. *)
Ltac tame_frame :=
  intros ?s ?s' ?Hq ?H; cbn in H;
  repeat match type of H with
         | match ?x with _ => _ end = _ => destruct x; [|discriminate]
         end;
  injection H as <-;
  exists [], []; cbn; rewrite !app_nil_r;
  split; [done|split; [apply not_elem_of_nil|split; [done|]]];
  rewrite Z.add_0_r, to_size_t_small; done.

Lemma tame_skip : tame skip.
Proof. tame_frame. Qed.

Lemma tame_abort : tame abort.
Proof. intros s s' _ H. discriminate H. Qed.

Lemma tame_upd_db (f : tx_db -> tx_db) : tame (upd_db f).
Proof. tame_frame. Qed.

Lemma tame_upd_db_opt (f : tx_db -> option tx_db) : tame (upd_db_opt f).
Proof.
  intros s s' Hq H. unfold upd_db_opt in H. destruct (f (db_ s)); [|discriminate].
  injection H as <-. exists [], []. cbn. rewrite !app_nil_r.
  split; [done|split; [apply not_elem_of_nil|split; [done|]]].
  rewrite Z.add_0_r, to_size_t_small; done.
Qed.

Lemma tame_set_failed (b : bool) : tame (set_failed b).
Proof. tame_frame. Qed.

Lemma tame_add_get_indices (d : Z) : tame (add_get_indices d).
Proof. tame_frame. Qed.

Lemma tame_set_last_wakeup (t : Z) : tame (set_last_wakeup t).
Proof. tame_frame. Qed.

Lemma tame_set_watch_row (a : payment_address) (r : address_row) : tame (set_watch_row a r).
Proof. tame_frame. Qed.

Lemma tame_emit (e : event) : e <> on_quiet -> tame (emit e).
Proof.
  intros He s s' Hq H. injection H as <-. exists [e], []. cbn.
  split; [done|split; [|split; [by rewrite app_nil_r|]]].
  - rewrite list_elem_of_singleton. congruence.
  - rewrite Z.add_0_r, to_size_t_small; done.
Qed.

Lemma tame_dispatch (r : request) : counted r = false -> tame (dispatch r).
Proof.
  intros Hr s s' Hq H. injection H as <-. exists [], [r]. cbn. rewrite Hr, !app_nil_r.
  split; [done|split; [apply not_elem_of_nil|split; [done|]]].
  rewrite Z.add_0_r, to_size_t_small; done.
Qed.

Lemma tame_counted_query (r : request) :
  counted r = true -> tame (seq_ops [add_queries 1; dispatch r]).
Proof.
  intros Hr s s' Hq H. injection H as <-. exists [], [r]. cbn. rewrite Hr, !app_nil_r.
  split; [done|split; [apply not_elem_of_nil|split; [done|]]].
  all: f_equal; lia.
Qed.

Lemma tame_seq (fs : list M) : Forall tame fs -> tame (seq_ops fs).
Proof.
  induction fs as [|f fs IH]; intros Hfs.
  - tame_frame.
  - apply Forall_cons in Hfs as [Hf Hfs]. intros s s'' Hq H. cbn in H.
    destruct (f s) as [s1|] eqn:E1; [|discriminate].
    destruct (Hf s s1 Hq E1) as (ev1 & pd1 & He1 & Hn1 & Hp1 & Hq1).
    assert (fits 64 (queued_queries_ s1)) as Hq1' by (rewrite Hq1; apply to_size_t_fits).
    destruct (IH Hfs s1 s'' Hq1' H) as (ev2 & pd2 & He2 & Hn2 & Hp2 & Hq2).
    exists (ev1 ++ ev2), (pd1 ++ pd2).
    rewrite He2, He1, Hp2, Hp1, Hq2, Hq1, !app_assoc, to_size_t_add, n_counted_app.
    split; [done|split; [by apply not_elem_of_app|split; [done|]]]. f_equal. lia.
Qed.

Lemma Forall_tame_map {A} (l : list A) (f : A -> M) :
  (forall x, tame (f x)) -> Forall tame (map f l).
Proof. intros Hf. induction l; cbn; constructor; auto. Qed.

Lemma tame_for_each {A} (l : list A) (f : A -> M) :
  (forall x, tame (f x)) -> tame (for_each l f).
Proof. intros Hf. apply tame_seq, Forall_tame_map, Hf. Qed.

Lemma tame_with_state (g : updater -> M) : (forall s, tame (g s)) -> tame (with_state g).
Proof. intros Hg s s' Hq H. exact (Hg s s s' Hq H). Qed.

Lemma tame_when (b : bool) (f : M) : tame f -> tame (when b f).
Proof. intros Hf. destruct b; [exact Hf|apply tame_skip]. Qed.

#[local] Hint Resolve tame_skip tame_abort tame_upd_db tame_upd_db_opt tame_set_failed
  tame_add_get_indices tame_set_last_wakeup tame_set_watch_row : tame.

Ltac tame_solve :=
  repeat match goal with
  | |- tame (for_each _ _) => apply tame_for_each; intro
  | |- tame (seq_ops _) => apply tame_seq; repeat constructor
  | |- tame (with_state _) => apply tame_with_state; intro
  | |- tame (when _ _) => apply tame_when
  | |- tame (emit _) => apply tame_emit; discriminate
  | |- tame (dispatch _) => apply tame_dispatch; reflexivity
  | |- tame _ => solve [eauto with tame]
  end.

Lemma tame_get_index (h : Z) : tame (Updater.get_index h).
Proof. unfold Updater.get_index. tame_solve. Qed.
#[local] Hint Resolve tame_get_index : tame.

Lemma tame_get_tx (h : Z) (w : bool) : tame (Updater.get_tx h w).
Proof. apply tame_counted_query. reflexivity. Qed.
#[local] Hint Resolve tame_get_tx : tame.

Lemma tame_get_tx_mem (h : Z) (w : bool) : tame (Updater.get_tx_mem h w).
Proof. apply tame_counted_query. reflexivity. Qed.
#[local] Hint Resolve tame_get_tx_mem : tame.

Lemma tame_query_address (a : payment_address) : tame (Updater.query_address a).
Proof. apply tame_counted_query. reflexivity. Qed.
#[local] Hint Resolve tame_query_address : tame.

Lemma tame_queue_get_indices : tame Updater.queue_get_indices.
Proof.
  unfold Updater.queue_get_indices. apply tame_with_state. intros s.
  destruct (negb _); tame_solve.
Qed.
#[local] Hint Resolve tame_queue_get_indices : tame.

Lemma tame_watch_tx_with (gi : transaction_type -> M) (now h : Z) (w : bool) :
  (forall t, tame (gi t)) -> tame (Updater.watch_tx_with gi now h w).
Proof.
  intros Hgi. unfold Updater.watch_tx_with. apply tame_seq. repeat constructor.
  - apply tame_upd_db.
  - apply tame_with_state. intros s. destruct (negb _); [apply tame_get_tx|].
    apply tame_when, Hgi.
Qed.

Lemma tame_get_inputs (now : Z) (t : transaction_type) : tame (Updater.get_inputs now t).
Proof.
  unfold Updater.get_inputs. apply tame_for_each. intros i.
  apply tame_watch_tx_with. intros _. apply tame_skip.
Qed.
#[local] Hint Resolve tame_get_inputs : tame.

Lemma tame_watch_tx (now h : Z) (w : bool) : tame (Updater.watch_tx now h w).
Proof. apply tame_watch_tx_with. intros t. apply tame_get_inputs. Qed.
#[local] Hint Resolve tame_watch_tx : tame.

Lemma tame_insert_and_notify (hf : transaction_type -> Z) (now : Z) (t : transaction_type) (st : Z) :
  tame (Updater.insert_and_notify hf now t st).
Proof.
  unfold Updater.insert_and_notify. apply tame_with_state. intros s.
  destruct (insert hf (db_ s) now t st) as [added d]. tame_solve.
Qed.
#[local] Hint Resolve tame_insert_and_notify : tame.

Lemma tame_run_user (hf : transaction_type -> Z) (now steady : Z) (op : user_op) :
  tame (Updater.run_user hf now steady op).
Proof.
  destruct op; cbn [Updater.run_user].
  - unfold Updater.start, Updater.get_height, Updater.send_tx. tame_solve.
  - unfold Updater.watch_address. tame_solve.
  - unfold Updater.send, Updater.send_tx. tame_solve.
  - unfold Updater.wakeup, Updater.get_height. tame_solve.
Qed.

Lemma tame_done_seq (fs : list M) : Forall tame fs -> tame_done (seq_ops (fs ++ [Updater.query_done])).
Proof.
  induction fs as [|f fs IH]; intros Hfs.
  - intros s s' Hq H. cbn [app seq_ops] in H. unfold Updater.query_done in H.
    cbn [seq_ops] in H. unfold add_queries, with_state, when in H.
    cbn [queued_queries_] in H.
    destruct (to_size_t (queued_queries_ s + -1) =? 0) eqn:Hq0;
      cbn in H; injection H as <-; exists [], []; cbn; rewrite Hq0, ?app_nil_r;
      (split; [reflexivity|split; [apply not_elem_of_nil|split; [reflexivity|]]]);
      f_equal; lia.
  - apply Forall_cons in Hfs as [Hf Hfs]. intros s s'' Hq H. cbn in H.
    destruct (f s) as [s1|] eqn:E1; [|discriminate].
    destruct (Hf s s1 Hq E1) as (ev1 & pd1 & He1 & Hn1 & Hp1 & Hq1).
    assert (fits 64 (queued_queries_ s1)) as Hq1' by (rewrite Hq1; apply to_size_t_fits).
    destruct (IH Hfs s1 s'' Hq1' H) as (ev2 & pd2 & He2 & Hn2 & Hp2 & Hq2).
    exists (ev1 ++ ev2), (pd1 ++ pd2).
    split; [by rewrite He2, He1, <- !app_assoc|].
    split; [by apply not_elem_of_app|].
    split; [by rewrite Hp2, Hp1, app_assoc|].
    rewrite Hq2, Hq1, n_counted_app.
    replace (to_size_t (queued_queries_ s + n_counted pd1) + n_counted pd2 - 1)
      with (to_size_t (queued_queries_ s + n_counted pd1) + (n_counted pd2 - 1)) by lia.
    rewrite to_size_t_add. f_equal. lia.
Qed.

Lemma tame_done_abort : tame_done abort.
Proof. intros s s' _ H. discriminate H. Qed.

Lemma tame_done_tx_done (hf : transaction_type -> Z) (now h : Z) (w : bool) (t : transaction_type) :
  tame_done (Updater.tx_done hf now h w t).
Proof.
  unfold Updater.tx_done. destruct (negb _); [apply tame_done_abort|].
  change (tame_done (seq_ops ([Updater.insert_and_notify hf now t tx_state.unconfirmed;
                               when w (Updater.get_inputs now t);
                               Updater.get_index h] ++ [Updater.query_done]))).
  apply tame_done_seq. repeat constructor; tame_solve.
Qed.

Lemma callback_counted (hf : transaction_type -> Z) (now : Z) (r : request) (resp : response) (f : M) :
  counted r = true -> Updater.callback hf now r resp = Some f -> tame_done f.
Proof.
  intros Hr Hf. destruct r; try discriminate Hr; destruct resp; cbn in Hf;
    try discriminate Hf; injection Hf as <-.
  - apply tame_done_tx_done.
  - change (tame_done (seq_ops ([Updater.get_tx_mem tx_hash want_inputs] ++ [Updater.query_done]))).
    apply tame_done_seq. repeat constructor. apply tame_get_tx_mem.
  - apply tame_done_tx_done.
  - change (tame_done (seq_ops ([set_failed true] ++ [Updater.query_done]))).
    apply tame_done_seq. repeat constructor. apply tame_set_failed.
  - change (tame_done (seq_ops ([for_each history (fun hs =>
                       seq_ops [Updater.watch_tx now hs.1 true;
                                when (negb (hs.2 =? 0)) (Updater.watch_tx now hs.2 true)])]
                       ++ [Updater.query_done]))).
    apply tame_done_seq. repeat constructor. tame_solve.
  - change (tame_done (seq_ops ([set_failed true] ++ [Updater.query_done]))).
    apply tame_done_seq. repeat constructor. apply tame_set_failed.
Qed.

Lemma callback_uncounted (hf : transaction_type -> Z) (now : Z) (r : request) (resp : response) (f : M) :
  counted r = false -> Updater.callback hf now r resp = Some f -> tame f.
Proof.
  intros Hr Hf. destruct r; try discriminate Hr; destruct resp; cbn [Updater.callback] in Hf;
    try discriminate Hf; apply (inj Some) in Hf; subst f; tame_solve.
  destruct (negb _); tame_solve.
Qed.

(** One step, given the counter matches the codec queue. *)
Lemma step_queued (hf : transaction_type -> Z) (s s' : updater) :
  Updater.step hf s s' ->
  queued_queries_ s = to_size_t (n_counted (pending s)) ->
  queued_queries_ s' = to_size_t (n_counted (pending s')) /\
  exists ev, events s' = events s ++ ev /\
    (((on_quiet ∉ ev) /\ n_counted (pending s) <= n_counted (pending s')) \/
     (1 <= n_counted (pending s) <= n_counted (pending s') + 1 /\
      exists ev0, (on_quiet ∉ ev0) /\
        ev = ev0 ++ (if queued_queries_ s' =? 0 then [on_quiet] else []))).
Proof.
  intros Hstep Hinv.
  assert (fits 64 (queued_queries_ s)) as Hq by (rewrite Hinv; apply to_size_t_fits).
  inversion Hstep as [now steady op s0 s0' Hrun|now i r resp f s0 s0' Hi Hcb Hf]; subst s0 s0'.
  - destruct (tame_run_user hf now steady op s s' Hq Hrun) as (ev & pd & He & Hn & Hp & Hq').
    split.
    + rewrite Hq', Hp, Hinv, to_size_t_add, n_counted_app. reflexivity.
    + exists ev. split; [done|]. left. split; [done|].
      rewrite Hp, n_counted_app. pose proof (n_counted_nonneg pd). lia.
  - pose proof (n_counted_delete _ _ _ Hi) as Hdel.
    destruct (counted r) eqn:Hr; rewrite ?Hr in Hdel.
    + destruct (callback_counted hf now r resp f Hr Hcb (remove_pending i s) s' Hq Hf)
        as (ev & pd & He & Hn & Hp & Hq').
      cbn [pending queued_queries_ events remove_pending] in *.
      split.
      * rewrite Hq', Hp, Hinv, <- Z.add_sub_assoc, to_size_t_add, n_counted_app.
        f_equal. lia.
      * exists (ev ++ (if queued_queries_ s' =? 0 then [on_quiet] else [])).
        split; [done|]. right.
        rewrite Hp, n_counted_app. pose proof (n_counted_nonneg pd).
        pose proof (n_counted_nonneg (delete i (pending s))).
        split; [lia|]. exists ev. done.
    + destruct (callback_uncounted hf now r resp f Hr Hcb (remove_pending i s) s' Hq Hf)
        as (ev & pd & He & Hn & Hp & Hq').
      cbn [pending queued_queries_ events remove_pending] in *.
      split.
      * rewrite Hq', Hp, Hinv, to_size_t_add, n_counted_app. f_equal. lia.
      * exists ev. split; [done|]. left. split; [done|].
        rewrite Hp, n_counted_app. pose proof (n_counted_nonneg pd). lia.
Qed.

Lemma reachable_queued (hf : transaction_type -> Z) (db : tx_db) (steady : Z) (s : updater) :
  rtc (Updater.step hf) (init_updater db steady) s ->
  queued_queries_ s = to_size_t (n_counted (pending s)).
Proof.
  revert s. apply rtc_ind_r.
  - reflexivity.
  - intros s1 s2 _ Hstep IH. exact (proj1 (step_queued hf s1 s2 Hstep IH)).
Qed.

(** C8: in every reachable state [queued_queries_] is the number of
    outstanding transaction and history queries (modulo 2^64).  In a step
    that leaves fewer than 2^64 of them, the events are appended; the
    counter reaches 0 only from 1; and [on_quiet] is emitted, once and as
    the last event, exactly when the counter goes from 1 to 0.  In
    particular the fallback of a failed [fetch_transaction] to the mempool
    query (counted first) never emits it. *)
Theorem queued_queries_quiet (hash_transaction : transaction_type -> Z) (db : tx_db)
    (steady : Z) (s s' : updater) :
  rtc (Updater.step hash_transaction) (init_updater db steady) s ->
  Updater.step hash_transaction s s' ->
  n_counted (pending s') < 2 ^ 64 ->
  queued_queries_ s = to_size_t (n_counted (pending s)) /\
  queued_queries_ s' = n_counted (pending s') /\
  (queued_queries_ s' = 0 -> queued_queries_ s <= 1) /\
  exists ev, events s' = events s ++ ev /\
    ((queued_queries_ s = 1 /\ queued_queries_ s' = 0 /\
      exists ev0, ev = ev0 ++ [on_quiet] /\ (on_quiet ∉ ev0)) \/
     (~ (queued_queries_ s = 1 /\ queued_queries_ s' = 0) /\ (on_quiet ∉ ev))).
Proof.
  intros Hreach Hstep Hbound.
  pose proof (reachable_queued hash_transaction db steady s Hreach) as Hinv.
  destruct (step_queued hash_transaction s s' Hstep Hinv) as (Hinv' & ev & He & Hcase).
  pose proof (n_counted_nonneg (pending s)) as Hn0.
  pose proof (n_counted_nonneg (pending s')) as Hn1.
  assert (queued_queries_ s' = n_counted (pending s')) as Hq'
    by (rewrite Hinv'; apply to_size_t_small; unfold fits; lia).
  assert (forall x, 0 <= x <= 1 -> to_size_t x = x) as Hsmall
    by (intros x Hx; apply to_size_t_small; unfold fits; lia).
  split; [exact Hinv|]. split; [exact Hq'|].
  destruct Hcase as [[Hn Hle]|[Hle (ev0 & Hn & ->)]].
  - split.
    + intros H0. rewrite Hinv, Hsmall; lia.
    + exists ev. split; [done|]. right. split; [|done].
      intros [H1 H0]. rewrite Hinv, Hsmall in H1; lia.
  - split.
    + intros H0. rewrite Hinv, Hsmall; lia.
    + exists (ev0 ++ (if queued_queries_ s' =? 0 then [on_quiet] else [])). split; [done|].
      destruct (queued_queries_ s' =? 0) eqn:E.
      * apply Z.eqb_eq in E. left.
        split; [rewrite Hinv, Hsmall; lia|]. split; [done|]. by exists ev0.
      * apply Z.eqb_neq in E. right. rewrite app_nil_r. split; [|done]. intros [_ H0]. done.
Qed.

Lemma queued_queries_quiet_witness :
  rtc (Updater.step quiet_hash) (init_updater (new_tx_db 86400) 0) quiet_s1 /\
  Updater.step quiet_hash quiet_s1 quiet_s2 /\
  n_counted (pending quiet_s2) < 2 ^ 64 /\
  events quiet_s2 = [on_quiet] /\
  (queued_queries_ quiet_s1 = to_size_t (n_counted (pending quiet_s1)) /\
   queued_queries_ quiet_s2 = n_counted (pending quiet_s2) /\
   (queued_queries_ quiet_s2 = 0 -> queued_queries_ quiet_s1 <= 1) /\
   exists ev, events quiet_s2 = events quiet_s1 ++ ev /\
     ((queued_queries_ quiet_s1 = 1 /\ queued_queries_ quiet_s2 = 0 /\
       exists ev0, ev = ev0 ++ [on_quiet] /\ (on_quiet ∉ ev0)) \/
      (~ (queued_queries_ quiet_s1 = 1 /\ queued_queries_ quiet_s2 = 0) /\ (on_quiet ∉ ev)))).
Proof.
  assert (rtc (Updater.step quiet_hash) (init_updater (new_tx_db 86400) 0) quiet_s1) as H1.
  { apply rtc_once. apply (Updater.step_user quiet_hash 0 0 (WatchAddress (1, 1) 1000)).
    vm_compute. reflexivity. }
  assert (Updater.step quiet_hash quiet_s1 quiet_s2) as H2.
  { refine (Updater.step_server quiet_hash 0 0 (RHistory (1, 1)) (HistoryDone []) _
              quiet_s1 quiet_s2 _ eq_refl _); vm_compute; reflexivity. }
  assert (n_counted (pending quiet_s2) < 2 ^ 64) as H3 by (vm_compute; reflexivity).
  split; [exact H1|]. split; [exact H2|]. split; [exact H3|].
  split; [vm_compute; reflexivity|].
  exact (queued_queries_quiet quiet_hash (new_tx_db 86400) 0 quiet_s1 quiet_s2 H1 H2 H3).
Defined.

(** ** Further properties of [tx_db] *)

Lemma output_pays_true (address : payment_address) (output : transaction_output_type)
    (extract : list Z -> option payment_address) :
  output_pays extract address output = true <-> extract (output_script output) = Some address.
Proof.
  unfold output_pays. destruct (extract (output_script output)) as [a|]; [|done].
  rewrite bool_decide_eq_true. split; [intros ->|intros Ha; injection Ha]; done.
Qed.

(** [has_history] answers whether some output of some stored transaction
    pays to the address. *)
Theorem has_history_spec (extract : list Z -> option payment_address) (db : tx_db)
    (address : payment_address) :
  has_history extract db address = true <->
  exists h r o, rows db !! h = Some r /\ o ∈ tx_outputs (tx r) /\
                extract (output_script o) = Some address.
Proof.
  unfold has_history. rewrite existsb_exists. split.
  - intros ([h r] & Hin & Hex). apply existsb_exists in Hex as (o & Ho & Hp).
    apply output_pays_true in Hp. exists h, r, o.
    apply list_elem_of_In in Hin. apply list_elem_of_In in Ho.
    apply elem_of_map_to_list in Hin. done.
  - intros (h & r & o & Hr & Ho & Hp). exists (h, r). split.
    + rewrite <- list_elem_of_In. by apply elem_of_map_to_list.
    + apply existsb_exists. exists o. rewrite <- list_elem_of_In. split; [done|].
      by apply output_pays_true.
Qed.

Lemma get_utxos_valid (db : tx_db) (u : output_info_type) :
  u ∈ get_utxos db ->
  exists r o, rows db !! op_hash u.1 = Some r /\
              tx_outputs (tx r) !! Z.to_nat (op_index u.1) = Some o.
Proof.
  unfold get_utxos. intros Hu. apply elem_of_concat in Hu as (l & Hu & Hl).
  apply list_elem_of_fmap in Hl as ([h r] & -> & Hin). apply elem_of_map_to_list in Hin.
  cbn in Hu. destruct u as [p v].
  apply unspent_outputs_elem in Hu as [(k & o & Hk & -> & ->) _].
  exists r, o. cbn. split; [done|]. rewrite Z.add_0_l, Nat2Z.id. done.
Qed.

Lemma filter_utxos_spec (extract : list Z -> option payment_address) (db : tx_db)
    (addresses : address_set) (raw : list output_info_type) :
  Forall (fun u => exists r o, rows db !! op_hash u.1 = Some r /\
                      tx_outputs (tx r) !! Z.to_nat (op_index u.1) = Some o) raw ->
  exists l, filter_utxos extract db addresses raw = Some l /\ l `sublist_of` raw /\
    forall u, u ∈ l <-> u ∈ raw /\ utxo_pays extract db addresses u.
Proof.
  induction raw as [|u rest IH]; intros Hall; cbn.
  - exists []. split; [done|]. split; [constructor|].
    intros u. split; [intros Hu; inversion Hu|intros [Hu _]; inversion Hu].
  - apply Forall_cons in Hall as [(r & o & Hr & Ho) Hrest].
    destruct (IH Hrest) as (l & Hl & Hsub & Hmem).
    rewrite Hr, Ho, Hl.
    assert (Hpays : utxo_pays extract db addresses u <->
      match extract (output_script o) with
      | Some to_address => bool_decide (to_address ∈ addresses)
      | None => false end = true).
    { unfold utxo_pays. rewrite Hr. split.
      - intros (r' & o' & a & Hr' & Ho' & Ha & HA). injection Hr' as <-.
        rewrite Ho in Ho'. injection Ho' as <-. rewrite Ha. by apply bool_decide_eq_true.
      - destruct (extract (output_script o)) as [a|] eqn:Ea; [|done].
        intros HA. apply bool_decide_eq_true in HA. exists r, o, a. done. }
    destruct (match extract (output_script o) with
              | Some to_address => bool_decide (to_address ∈ addresses)
              | None => false end) eqn:Ek.
    + exists (u :: l). split; [done|]. split; [by constructor|].
      intros u'. rewrite !elem_of_cons, Hmem. split.
      * intros [->|[Hin Hp]]; [split; [by left|by apply Hpays]|]. split; [by right|done].
      * intros [[->|Hin] Hp]; [by left|by right].
    + exists l. split; [done|]. split; [by constructor|].
      intros u'. rewrite elem_of_cons, Hmem. split.
      * intros [Hin Hp]. split; [by right|done].
      * intros [[->|Hin] Hp]; [|done]. apply Hpays in Hp. discriminate.
Qed.

(** [get_utxos(addresses)] never aborts on what [get_utxos()] returns: it
    keeps, in order, exactly the unspent outputs whose script pays to one
    of the addresses. *)
Theorem get_utxos_for_spec (extract : list Z -> option payment_address) (db : tx_db)
    (addresses : address_set) :
  exists l, get_utxos_for extract db addresses = Some l /\ l `sublist_of` get_utxos db /\
    forall u, u ∈ l <-> u ∈ get_utxos db /\ utxo_pays extract db addresses u.
Proof.
  apply filter_utxos_spec. apply Forall_forall. intros u Hu. by apply get_utxos_valid.
Qed.

Lemma set_rows_same (db : tx_db) : set_rows db (rows db) = db.
Proof. by destruct db. Qed.

Lemma confirmed_lookup (db : tx_db) (h bh : Z) (r : tx_row) :
  rows db !! h = Some r ->
  confirmed db h bh = Some (set_rows db (<[h := set_confirmed r bh]> (rows db))).
Proof.
  intros Hr. unfold confirmed. rewrite Hr. cbv zeta. rewrite !check_fork_id.
  destruct ((state r =? tx_state.confirmed) && negb (block_height r =? bh)); by rewrite Hr.
Qed.

Lemma unconfirmed_lookup (db : tx_db) (h : Z) (r : tx_row) :
  rows db !! h = Some r ->
  unconfirmed db h = Some (set_rows db (<[h := set_state r tx_state.unconfirmed]> (rows db))).
Proof.
  intros Hr. unfold unconfirmed. rewrite Hr. cbv zeta. rewrite !check_fork_id.
  destruct (state r =? tx_state.confirmed); by rewrite Hr.
Qed.

(** A transaction [insert] adds is then found: [has_tx] holds, [get_tx]
    returns it and [get_tx_height] is 0, whatever state it was given; the
    other rows and the last height are left as they were. *)
Theorem insert_then_lookup (hash_transaction : transaction_type -> Z) (db : tx_db)
    (now : Z) (t : transaction_type) (st : Z)
    (Hnew : rows db !! hash_transaction t = None) :
  let db' := (insert hash_transaction db now t st).2 in
  has_tx db' (hash_transaction t) = true /\ get_tx db' (hash_transaction t) = t /\
  get_tx_height db' (hash_transaction t) = 0 /\
  last_height db' = last_height db /\
  (forall h, h <> hash_transaction t -> rows db' !! h = rows db !! h).
Proof.
  cbv zeta. unfold insert. rewrite Hnew. cbn.
  unfold has_tx, get_tx, get_tx_height. cbn. rewrite lookup_insert_eq. cbn.
  split; [done|]. split; [done|]. split; [by destruct (st =? tx_state.confirmed)|].
  split; [done|]. intros h Hh. by rewrite lookup_insert_ne by congruence.
Qed.

Lemma insert_then_lookup_witness :
  rows (new_tx_db 86400) !! (fun _ : transaction_type => 7) empty_tx = None /\
  get_tx (insert (fun _ => 7) (new_tx_db 86400) 0 empty_tx tx_state.unsent).2 7 = empty_tx.
Proof.
  assert (H : rows (new_tx_db 86400) !! (fun _ : transaction_type => 7) empty_tx = None)
    by reflexivity.
  split; [exact H|].
  exact (proj1 (proj2 (insert_then_lookup (fun _ => 7) (new_tx_db 86400) 0 empty_tx
                          tx_state.unsent H))).
Defined.

(** After [forget], the transaction is gone: [has_tx] is false, [get_tx]
    returns the empty transaction and [get_tx_height] 0; the other rows
    stay, and forgetting an unknown hash changes nothing. *)
Theorem forget_then_lookup (db : tx_db) (h : Z) :
  has_tx (forget db h) h = false /\ get_tx (forget db h) h = empty_tx /\
  get_tx_height (forget db h) h = 0 /\
  (forall h', h' <> h -> rows (forget db h) !! h' = rows db !! h') /\
  (rows db !! h = None -> forget db h = db).
Proof.
  unfold has_tx, get_tx, get_tx_height, forget. cbn. rewrite lookup_delete_eq.
  split; [done|]. split; [done|]. split; [done|]. split.
  - intros h' Hh'. by apply lookup_delete_ne.
  - intros Hn. rewrite delete_id by done. apply set_rows_same.
Qed.

(** [confirmed] and [unconfirmed] on a stored transaction do not abort:
    [confirmed] makes [get_tx_height] the block height it is given,
    [unconfirmed] makes it 0; the transaction, its timestamp and flag, the
    other rows and the last height stay as they were. *)
Theorem confirmed_unconfirmed_stored (db : tx_db) (h bh : Z) (r : tx_row)
    (Hr : rows db !! h = Some r) :
  (exists db', confirmed db h bh = Some db' /\
     rows db' !! h = Some (mk_row (tx r) tx_state.confirmed bh (timestamp r) (need_check r)) /\
     get_tx_height db' h = bh /\ get_tx db' h = tx r /\
     last_height db' = last_height db /\
     forall h', h' <> h -> rows db' !! h' = rows db !! h') /\
  (exists db', unconfirmed db h = Some db' /\
     rows db' !! h = Some (mk_row (tx r) tx_state.unconfirmed (block_height r) (timestamp r)
                             (need_check r)) /\
     get_tx_height db' h = 0 /\ get_tx db' h = tx r /\
     last_height db' = last_height db /\
     forall h', h' <> h -> rows db' !! h' = rows db !! h').
Proof.
  split.
  - eexists. split; [by apply confirmed_lookup|].
    unfold get_tx_height, get_tx. cbn. rewrite lookup_insert_eq. cbn.
    split; [done|]. split; [done|]. split; [done|]. split; [done|].
    intros h' Hh'. by rewrite lookup_insert_ne by congruence.
  - eexists. split; [by apply unconfirmed_lookup|].
    unfold get_tx_height, get_tx. cbn. rewrite lookup_insert_eq. cbn.
    split; [done|]. split; [done|]. split; [done|]. split; [done|].
    intros h' Hh'. by rewrite lookup_insert_ne by congruence.
Qed.

Lemma confirmed_unconfirmed_stored_witness :
  rows fork_example_db !! 1 = Some fork_example_row /\
  unconfirmed fork_example_db 1 <> None.
Proof.
  assert (H : rows fork_example_db !! 1 = Some fork_example_row) by reflexivity.
  split; [exact H|].
  destruct (proj2 (confirmed_unconfirmed_stored fork_example_db 1 100 fork_example_row H))
    as (db' & E & _). rewrite E. discriminate.
Defined.

Lemma fst_filter_elem (f : Z * tx_row -> bool) (m : gmap Z tx_row) (h : Z) :
  h ∈ map fst (List.filter f (map_to_list m)) <-> exists r, m !! h = Some r /\ f (h, r) = true.
Proof.
  rewrite list_elem_of_fmap. split.
  - intros ([h' r] & -> & Hin). apply list_elem_of_In, filter_In in Hin as [Hin Hf].
    apply list_elem_of_In, elem_of_map_to_list in Hin. by exists r.
  - intros (r & Hr & Hf). exists (h, r). split; [done|].
    apply list_elem_of_In, filter_In. split; [|done].
    apply list_elem_of_In, elem_of_map_to_list. done.
Qed.

Lemma fst_filter_nodup (f : Z * tx_row -> bool) (L : list (Z * tx_row)) :
  NoDup (map fst L) -> NoDup (map fst (List.filter f L)).
Proof.
  induction L as [|[h r] L IH]; cbn; intros Hnd; [constructor|].
  apply NoDup_cons in Hnd as [Hh Hnd]. destruct (f (h, r)); cbn; [|by apply IH].
  constructor; [|by apply IH]. intros Hin. apply Hh.
  apply list_elem_of_In in Hin. apply list_elem_of_In.
  apply in_map_iff in Hin as (x & <- & Hx). apply filter_In in Hx as [Hx _].
  by apply in_map.
Qed.

Lemma foreach_forked_elem (db : tx_db) (h : Z) :
  h ∈ foreach_forked db <->
  exists r, rows db !! h = Some r /\ state r = tx_state.confirmed /\ need_check r = true.
Proof.
  unfold foreach_forked. rewrite fst_filter_elem. cbn.
  setoid_rewrite andb_true_iff. setoid_rewrite Z.eqb_eq. done.
Qed.

(** The [foreach_*] methods: [foreach_unconfirmed] visits each stored
    transaction not confirmed, [foreach_forked] each confirmed one with
    [need_check] set, both once; [foreach_unsent] passes each transaction
    in the unsent state. *)
Theorem foreach_spec (db : tx_db) :
  (forall h, h ∈ foreach_unconfirmed db <->
     exists r, rows db !! h = Some r /\ state r <> tx_state.confirmed) /\
  NoDup (foreach_unconfirmed db) /\
  (forall h, h ∈ foreach_forked db <->
     exists r, rows db !! h = Some r /\ state r = tx_state.confirmed /\ need_check r = true) /\
  NoDup (foreach_forked db) /\
  (forall t, t ∈ foreach_unsent db <->
     exists h r, rows db !! h = Some r /\ state r = tx_state.unsent /\ tx r = t).
Proof.
  split; [|split; [|split; [|split]]].
  - intros h. unfold foreach_unconfirmed. rewrite fst_filter_elem. cbn.
    setoid_rewrite negb_true_iff. setoid_rewrite Z.eqb_neq. done.
  - apply fst_filter_nodup, NoDup_fst_map_to_list.
  - apply foreach_forked_elem.
  - apply fst_filter_nodup, NoDup_fst_map_to_list.
  - intros t. unfold foreach_unsent. rewrite list_elem_of_fmap. split.
    + intros ([h r] & -> & Hin). apply list_elem_of_In, filter_In in Hin as [Hin Hf].
      apply list_elem_of_In, elem_of_map_to_list in Hin. apply Z.eqb_eq in Hf.
      by exists h, r.
    + intros (h & r & Hr & Hs & <-). exists (h, r). split; [done|].
      apply list_elem_of_In, filter_In. split; [|by apply Z.eqb_eq].
      apply list_elem_of_In, elem_of_map_to_list. done.
Qed.

Lemma apply_ops_preserve (P : tx_db -> Prop) (hash_transaction : transaction_type -> Z) :
  (forall o db db', P db -> apply_op hash_transaction o db = Some db' -> P db') ->
  forall ops db db', P db -> apply_ops hash_transaction ops db = Some db' -> P db'.
Proof.
  intros Hop ops. induction ops as [|o ops IH]; cbn; intros db db' Hp Hops.
  - by injection Hops as <-.
  - destruct (apply_op hash_transaction o db) as [d|] eqn:E; [|discriminate].
    eapply IH; [|exact Hops]. eapply Hop; eauto.
Qed.

Lemma apply_op_no_flags (hash_transaction : transaction_type -> Z) (o : db_op)
    (db db' : tx_db) :
  no_flags db -> apply_op hash_transaction o db = Some db' -> no_flags db'.
Proof.
  intros Hnf. destruct o as [now t st|h bh|h|h|now h|height]; cbn.
  - unfold insert. destruct (rows db !! hash_transaction t); intros E; injection E as <-;
      [done|]. intros h r. cbn. rewrite lookup_insert_Some.
    intros [[_ <-]|[_ Hh]]; [done|]. by apply (Hnf h).
  - destruct (rows db !! h) as [r|] eqn:Hr; [|unfold confirmed; by rewrite Hr].
    rewrite (confirmed_lookup db h bh r Hr). intros E; injection E as <-.
    intros h' r'. cbn. rewrite lookup_insert_Some.
    intros [[_ <-]|[_ Hh]]; [exact (Hnf h r Hr)|by apply (Hnf h')].
  - destruct (rows db !! h) as [r|] eqn:Hr; [|unfold unconfirmed; by rewrite Hr].
    rewrite (unconfirmed_lookup db h r Hr). intros E; injection E as <-.
    intros h' r'. cbn. rewrite lookup_insert_Some.
    intros [[_ <-]|[_ Hh]]; [exact (Hnf h r Hr)|by apply (Hnf h')].
  - intros E; injection E as <-. intros h' r'. cbn. rewrite lookup_delete_Some.
    intros [_ Hh]. by apply (Hnf h').
  - unfold reset_timestamp. destruct (rows db !! h) as [r|] eqn:Hr;
      intros E; injection E as <-; [|done].
    intros h' r'. cbn. rewrite lookup_insert_Some.
    intros [[_ <-]|[_ Hh]]; [exact (Hnf h r Hr)|by apply (Hnf h')].
  - intros E; injection E as <-. intros h' r'. rewrite at_height_rows. apply Hnf.
Qed.

Lemma apply_op_keys_ok (hash_transaction : transaction_type -> Z) (o : db_op)
    (db db' : tx_db) :
  keys_ok hash_transaction db -> apply_op hash_transaction o db = Some db' ->
  keys_ok hash_transaction db'.
Proof.
  intros Hk. destruct o as [now t st|h bh|h|h|now h|height]; cbn.
  - unfold insert. destruct (rows db !! hash_transaction t); intros E; injection E as <-;
      [done|]. intros h r. cbn. rewrite lookup_insert_Some.
    intros [[<- <-]|[_ Hh]]; [done|]. by apply Hk.
  - destruct (rows db !! h) as [r|] eqn:Hr; [|unfold confirmed; by rewrite Hr].
    rewrite (confirmed_lookup db h bh r Hr). intros E; injection E as <-.
    intros h' r'. cbn. rewrite lookup_insert_Some.
    intros [[<- <-]|[_ Hh]]; [exact (Hk h r Hr)|by apply Hk].
  - destruct (rows db !! h) as [r|] eqn:Hr; [|unfold unconfirmed; by rewrite Hr].
    rewrite (unconfirmed_lookup db h r Hr). intros E; injection E as <-.
    intros h' r'. cbn. rewrite lookup_insert_Some.
    intros [[<- <-]|[_ Hh]]; [exact (Hk h r Hr)|by apply Hk].
  - intros E; injection E as <-. intros h' r'. cbn. rewrite lookup_delete_Some.
    intros [_ Hh]. by apply Hk.
  - unfold reset_timestamp. destruct (rows db !! h) as [r|] eqn:Hr;
      intros E; injection E as <-; [|done].
    intros h' r'. cbn. rewrite lookup_insert_Some.
    intros [[<- <-]|[_ Hh]]; [exact (Hk h r Hr)|by apply Hk].
  - intros E; injection E as <-. intros h' r'. rewrite at_height_rows. apply Hk.
Qed.

Lemma no_flags_new (unconfirmed_timeout : Z) : no_flags (new_tx_db unconfirmed_timeout).
Proof. intros h r. cbn. by rewrite lookup_empty. Qed.

Lemma keys_ok_new (hash_transaction : transaction_type -> Z) (unconfirmed_timeout : Z) :
  keys_ok hash_transaction (new_tx_db unconfirmed_timeout).
Proof. intros h r. cbn. by rewrite lookup_empty. Qed.

(** No method but [load] ever sets [need_check]: from a store without
    flagged rows, any sequence of [insert], [confirmed], [unconfirmed],
    [forget], [reset_timestamp] and [at_height] calls leaves none, so
    [foreach_forked] visits nothing. *)
Theorem ops_never_flag (hash_transaction : transaction_type -> Z) (ops : list db_op)
    (db db' : tx_db) (Hdb : no_flags db)
    (Hops : apply_ops hash_transaction ops db = Some db') :
  no_flags db' /\ foreach_forked db' = [].
Proof.
  assert (Hnf : no_flags db').
  { eapply (apply_ops_preserve no_flags); [|exact Hdb|exact Hops].
    intros o d d'. apply apply_op_no_flags. }
  split; [done|].
  destruct (foreach_forked db') as [|h l] eqn:E; [done|].
  assert (Hh : h ∈ foreach_forked db') by (rewrite E; by left).
  apply foreach_forked_elem in Hh as (r & Hr & _ & Hc). by rewrite (Hnf h r Hr) in Hc.
Qed.

Lemma ops_never_flag_witness :
  no_flags (new_tx_db 86400) /\
  apply_ops (fun _ => 7) [OpInsert 0 empty_tx tx_state.unsent; OpConfirmed 7 100;
                          OpAtHeight 100; OpConfirmed 7 101; OpAtHeight 105]
    (new_tx_db 86400) = Some (mk_db 105 {[7 := mk_row empty_tx tx_state.confirmed 101 0 false]} 86400) /\
  foreach_forked (mk_db 105 {[7 := mk_row empty_tx tx_state.confirmed 101 0 false]} 86400) = [].
Proof.
  assert (H1 := no_flags_new 86400).
  assert (H2 : apply_ops (fun _ => 7) [OpInsert 0 empty_tx tx_state.unsent; OpConfirmed 7 100;
                          OpAtHeight 100; OpConfirmed 7 101; OpAtHeight 105]
    (new_tx_db 86400) = Some (mk_db 105 {[7 := mk_row empty_tx tx_state.confirmed 101 0 false]} 86400))
    by (vm_compute; reflexivity).
  split; [exact H1|]. split; [exact H2|].
  exact (proj2 (ops_never_flag _ _ _ _ H1 H2)).
Defined.

(** Every row stays keyed by the hash of its transaction: [insert] stores a
    transaction under [hash_transaction] of it and no other method moves a
    row or replaces its transaction. *)
Theorem ops_keep_keys (hash_transaction : transaction_type -> Z) (ops : list db_op)
    (db db' : tx_db) (Hdb : keys_ok hash_transaction db)
    (Hops : apply_ops hash_transaction ops db = Some db') :
  keys_ok hash_transaction db'.
Proof.
  eapply (apply_ops_preserve (keys_ok hash_transaction)); [|exact Hdb|exact Hops].
  intros o d d'. apply apply_op_keys_ok.
Qed.

Lemma ops_keep_keys_witness :
  keys_ok (fun _ => 7) (new_tx_db 86400) /\
  apply_ops (fun _ => 7) [OpInsert 0 empty_tx tx_state.unsent; OpConfirmed 7 100]
    (new_tx_db 86400) = Some (mk_db 0 {[7 := mk_row empty_tx tx_state.confirmed 100 0 false]} 86400) /\
  keys_ok (fun _ => 7) (mk_db 0 {[7 := mk_row empty_tx tx_state.confirmed 100 0 false]} 86400).
Proof.
  assert (H1 := keys_ok_new (fun _ => 7) 86400).
  assert (H2 : apply_ops (fun _ => 7) [OpInsert 0 empty_tx tx_state.unsent; OpConfirmed 7 100]
    (new_tx_db 86400) = Some (mk_db 0 {[7 := mk_row empty_tx tx_state.confirmed 100 0 false]} 86400))
    by (vm_compute; reflexivity).
  split; [exact H1|]. split; [exact H2|].
  exact (ops_keep_keys _ _ _ _ H1 H2).
Defined.

Lemma inputs_controlled_spec (extract : list Z -> option payment_address)
    (addresses : address_set) (ins : list transaction_input_type) :
  inputs_controlled extract addresses ins = true <->
  Forall (fun input => exists a, extract (input_script input) = Some a /\ a ∈ addresses) ins.
Proof.
  induction ins as [|input rest IH]; cbn; [split; [constructor|done]|].
  rewrite Forall_cons. destruct (extract (input_script input)) as [a|] eqn:Ea.
  - case_bool_decide as HA.
    + rewrite IH. split; [intros H; split; [by exists a|done]|intros [_ H]; done].
    + split; [discriminate|]. intros [(a' & Ha' & HA') _]. injection Ha' as ->. done.
  - split; [discriminate|]. intros [(a' & Ha' & _) _]. discriminate.
Qed.

(** [is_spend] holds exactly when the transaction is stored and every one
    of its inputs has a script from which [extract] gets one of the
    addresses. *)
Theorem is_spend_spec (extract : list Z -> option payment_address) (db : tx_db)
    (tx_hash : Z) (addresses : address_set) :
  is_spend extract db tx_hash addresses = true <->
  exists r, rows db !! tx_hash = Some r /\
    Forall (fun input => exists a, extract (input_script input) = Some a /\ a ∈ addresses)
           (tx_inputs (tx r)).
Proof.
  unfold is_spend. destruct (rows db !! tx_hash) as [r|].
  - rewrite inputs_controlled_spec. split; [intros H; by exists r|].
    intros (r' & Hr' & H). by injection Hr' as ->.
  - split; [discriminate|]. intros (r & Hr & _). discriminate.
Qed.

(** ** Further properties of [tx_updater] *)

Lemma watching_fold (L : list (payment_address * address_row)) (acc : address_set)
    (a : payment_address) :
  a ∈ foldl (fun out row => {[row.1]} ∪ out) acc L <-> a ∈ acc \/ a ∈ L.*1.
Proof.
  revert acc. induction L as [|[b r] L IH]; intros acc; cbn.
  - split; [by left|]. intros [H|H]; [done|inversion H].
  - rewrite IH, elem_of_union, elem_of_singleton, elem_of_cons. tauto.
Qed.

Lemma watching_elem (s : updater) (a : payment_address) :
  a ∈ watching s <-> is_Some (watch_rows s !! a).
Proof.
  unfold watching. rewrite watching_fold, elem_of_empty. split.
  - intros [[]|Ha]. apply list_elem_of_fmap in Ha as ([b r] & -> & Hin).
    apply elem_of_map_to_list in Hin. by exists r.
  - intros [r Hr]. right. apply list_elem_of_fmap. exists (a, r). split; [done|].
    by apply elem_of_map_to_list.
Qed.

(** [watching] returns exactly the addresses that have a row. *)
Theorem watching_spec (s : updater) (a : payment_address) :
  a ∈ watching s <-> exists r, watch_rows s !! a = Some r.
Proof.
  unfold watching. rewrite watching_fold, elem_of_empty. split.
  - intros [[]|Ha]. apply list_elem_of_fmap in Ha as ([b r] & -> & Hin).
    apply elem_of_map_to_list in Hin. by exists r.
  - intros [r Hr]. right. apply list_elem_of_fmap. exists (a, r). split; [done|].
    by apply elem_of_map_to_list.
Qed.

(** [watch(address, poll)] adds the address to [watching], and replaces
    the row of an address already watched: its poll period becomes
    [poll] and its last check the current time.  It queries the
    address's history once (one more counted query) and leaves the store
    and the events alone. *)
Theorem watch_address_effect (steady : Z) (a : payment_address) (poll : Z) (s : updater) :
  exists s', Updater.watch_address steady a poll s = Some s' /\
    (forall b, b ∈ watching s' <-> b = a \/ b ∈ watching s) /\
    watch_rows s' !! a = Some (mk_address_row poll steady) /\
    (forall b, b <> a -> watch_rows s' !! b = watch_rows s !! b) /\
    pending s' = pending s ++ [RHistory a] /\
    queued_queries_ s' = to_size_t (queued_queries_ s + 1) /\
    events s' = events s /\ db_ s' = db_ s.
Proof.
  eexists. split; [reflexivity|]. cbn.
  split; [|split; [by rewrite lookup_insert_eq|split; [|repeat split]]].
  - intros b. rewrite !watching_elem. cbn [watch_rows].
    destruct (decide (b = a)) as [->|Hb].
    + rewrite lookup_insert_eq. split; [by left|eauto].
    + rewrite lookup_insert_ne by congruence. split; [by right|]. intros [->|H]; done.
  - intros b Hb. by rewrite lookup_insert_ne by congruence.
Qed.

Lemma send_result (hf : transaction_type -> Z) (now : Z) (t : transaction_type) (s : updater) :
  Updater.send hf now t s =
  Some (mk_updater (insert hf (db_ s) now t tx_state.unsent).2 (watch_rows s) (failed_ s)
          (queued_queries_ s) (queued_get_indices_ s) (last_wakeup_ s)
          (pending s ++ [RBroadcast t])
          (events s ++ if (insert hf (db_ s) now t tx_state.unsent).1 then [on_add t] else [])).
Proof.
  unfold Updater.send, Updater.insert_and_notify, Updater.send_tx, with_state.
  cbn [seq_ops]. destruct (insert hf (db_ s) now t tx_state.unsent) as [[] d]; cbn; by rewrite ?app_nil_r.
Qed.

(** The answers to a broadcast: an error forgets the transaction and
    reports [on_send(false)]; success makes the stored transaction
    unconfirmed (also one that was confirmed) and reports [on_send(true)];
    success for a transaction no longer stored aborts, on the assertion
    of [unconfirmed]. *)
Theorem broadcast_answers (hf : transaction_type -> Z) (now : Z) (t : transaction_type)
    (s : updater) :
  (exists g s', Updater.callback hf now (RBroadcast t) Failure = Some g /\ g s = Some s' /\
     has_tx (db_ s') (hf t) = false /\
     (forall h, h <> hf t -> rows (db_ s') !! h = rows (db_ s) !! h) /\
     events s' = events s ++ [on_send false t] /\ pending s' = pending s) /\
  (forall r, rows (db_ s) !! hf t = Some r ->
     exists f s', Updater.callback hf now (RBroadcast t) BroadcastDone = Some f /\
       f s = Some s' /\
       rows (db_ s') !! hf t = Some (mk_row (tx r) tx_state.unconfirmed (block_height r)
                                        (timestamp r) (need_check r)) /\
       (forall h, h <> hf t -> rows (db_ s') !! h = rows (db_ s) !! h) /\
       events s' = events s ++ [on_send true t] /\ pending s' = pending s) /\
  (rows (db_ s) !! hf t = None ->
     exists f, Updater.callback hf now (RBroadcast t) BroadcastDone = Some f /\ f s = None).
Proof.
  split; [|split].
  - do 2 eexists. split; [reflexivity|]. split; [reflexivity|]. cbn.
    unfold has_tx, forget. cbn. rewrite lookup_delete_eq.
    split; [done|]. split; [|done]. intros h Hh. by apply lookup_delete_ne.
  - intros r Hr. do 2 eexists. split; [reflexivity|].
    cbn [seq_ops]. unfold upd_db_opt. rewrite (unconfirmed_present _ _ _ Hr). cbn.
    split; [reflexivity|]. cbn. rewrite lookup_insert_eq.
    split; [done|]. split; [|done]. intros h Hh. by rewrite lookup_insert_ne by congruence.
  - intros Hn. eexists. split; [reflexivity|]. cbn [seq_ops]. unfold upd_db_opt.
    unfold unconfirmed. by rewrite Hn.
Qed.

(** Sending the same transaction twice queues two broadcasts; when the
    first one fails, the transaction is forgotten, and the success of the
    second then aborts: [unconfirmed] finds no row. *)
Theorem send_twice_fail_then_success_aborts (hf : transaction_type -> Z) (now steady : Z)
    (t : transaction_type) (s : updater) :
  let n := length (pending s) in
  exists s1 s2 s3 g f,
    Updater.run_user hf now steady (Send t) s = Some s1 /\
    Updater.run_user hf now steady (Send t) s1 = Some s2 /\
    pending s2 !! n = Some (RBroadcast t) /\
    Updater.callback hf now (RBroadcast t) Failure = Some g /\
    g (remove_pending n s2) = Some s3 /\
    pending s3 !! n = Some (RBroadcast t) /\
    Updater.callback hf now (RBroadcast t) BroadcastDone = Some f /\
    f (remove_pending n s3) = None.
Proof.
  cbv zeta. cbn [Updater.run_user].
  do 5 eexists. split; [apply send_result|]. split; [apply send_result|].
  cbn [pending db_]. rewrite <- app_assoc. cbn [app].
  split; [by apply list_lookup_middle|].
  split; [reflexivity|]. split; [reflexivity|].
  unfold remove_pending. cbn [pending].
  split; [rewrite delete_middle; by apply list_lookup_middle|].
  split; [reflexivity|]. cbn [seq_ops]. unfold upd_db_opt. cbn [db_].
  unfold unconfirmed, forget. cbn [rows set_rows]. by rewrite lookup_delete_eq.
Qed.

Lemma wakeup_height (steady : Z) (s : updater) :
  with_state (fun s => when (30000 <=? steady - last_wakeup_ s)
                          (seq_ops [Updater.get_height; set_last_wakeup steady])) s =
  Some (mk_updater (db_ s) (watch_rows s) (failed_ s) (queued_queries_ s)
          (queued_get_indices_ s)
          (if 30000 <=? steady - last_wakeup_ s then steady else last_wakeup_ s)
          (pending s ++ if 30000 <=? steady - last_wakeup_ s then [RHeight] else [])
          (events s)).
Proof.
  destruct s. unfold with_state. cbn [last_wakeup_].
  destruct (30000 <=? steady - last_wakeup_0); cbn; by rewrite ?app_nil_r.
Qed.

Lemma wakeup_loop (steady : Z) (L : list (payment_address * address_row)) (s : updater) :
  NoDup L.*1 -> (forall a r, (a, r) ∈ L -> watch_rows s !! a = Some r) ->
  exists s', for_each L (fun ar =>
      when (poll_time ar.2 <=? steady - last_check ar.2)
        (seq_ops [set_watch_row ar.1 (mk_address_row (poll_time ar.2) steady);
                  Updater.query_address ar.1])) s = Some s' /\
    db_ s' = db_ s /\ failed_ s' = failed_ s /\ last_wakeup_ s' = last_wakeup_ s /\
    events s' = events s /\
    pending s' = pending s ++
      flat_map (fun ar => if poll_due steady ar.2 then [RHistory ar.1] else []) L /\
    (forall a r, (a, r) ∈ L -> watch_rows s' !! a = Some (polled_row steady r)) /\
    (forall a, a ∉ L.*1 -> watch_rows s' !! a = watch_rows s !! a).
Proof.
  revert s. induction L as [|[b rb] L IH]; intros s Hnd Hin.
  - exists s. cbn. rewrite app_nil_r.
    repeat split; try done; intros a r Har; inversion Har.
  - cbn in Hnd. apply NoDup_cons in Hnd as [Hb Hnd].
    assert (Hnot : forall a r, (a, r) ∈ L -> a <> b).
    { intros a r Har ->. apply Hb. apply list_elem_of_fmap. by exists (b, r). }
    unfold for_each. cbn [map]. rewrite seq_ops_cons. cbn [fst snd].
    destruct (poll_due steady rb) eqn:Hd; unfold poll_due in Hd; rewrite Hd.
    + set (s1 := mk_updater (db_ s) (<[b := mk_address_row (poll_time rb) steady]> (watch_rows s))
                   (failed_ s) (to_size_t (queued_queries_ s + 1)) (queued_get_indices_ s)
                   (last_wakeup_ s) (pending s ++ [RHistory b]) (events s)).
      change (exists s', seq_ops (map (fun ar =>
        when (poll_time ar.2 <=? steady - last_check ar.2)
          (seq_ops [set_watch_row ar.1 (mk_address_row (poll_time ar.2) steady);
                    Updater.query_address ar.1])) L) s1 = Some s' /\
        db_ s' = db_ s /\ failed_ s' = failed_ s /\ last_wakeup_ s' = last_wakeup_ s /\
        events s' = events s /\
        pending s' = pending s ++
          flat_map (fun ar => if poll_due steady ar.2 then [RHistory ar.1] else [])
                   ((b, rb) :: L) /\
        (forall a r, (a, r) ∈ (b, rb) :: L -> watch_rows s' !! a = Some (polled_row steady r)) /\
        (forall a, a ∉ ((b, rb) :: L).*1 -> watch_rows s' !! a = watch_rows s !! a)).
      destruct (IH s1 Hnd) as (s' & Hrun & Hdb & Hf & Hl & He & Hp & Hw & Hw').
      { intros a r Har. cbn. rewrite lookup_insert_ne by (symmetry; eapply Hnot; eauto).
        apply Hin. by right. }
      exists s'. split; [exact Hrun|]. cbn [flat_map snd fst] in *.
      unfold poll_due. rewrite Hd. cbn in Hdb, Hf, Hl, He, Hp.
      split; [done|]. split; [done|]. split; [done|]. split; [done|].
      split; [by rewrite Hp, <- app_assoc|]. split.
      * intros a r Har. apply elem_of_cons in Har as [Har|Har].
        -- injection Har as -> ->. rewrite Hw' by done. cbn.
           rewrite lookup_insert_eq. unfold polled_row, poll_due. by rewrite Hd.
        -- by apply Hw.
      * intros a Ha. cbn in Ha. apply not_elem_of_cons in Ha as [Hab Ha].
        rewrite Hw' by done. cbn. by rewrite lookup_insert_ne by congruence.
    + destruct (IH s Hnd) as (s' & Hrun & Hdb & Hf & Hl & He & Hp & Hw & Hw').
      { intros a r Har. apply Hin. by right. }
      exists s'. split; [exact Hrun|]. cbn [flat_map snd fst].
      unfold poll_due. rewrite Hd.
      split; [done|]. split; [done|]. split; [done|]. split; [done|].
      split; [done|]. split.
      * intros a r Har. apply elem_of_cons in Har as [Har|Har].
        -- injection Har as -> ->. rewrite Hw' by done. rewrite (Hin b rb) by by left.
           unfold polled_row, poll_due. by rewrite Hd.
        -- by apply Hw.
      * intros a Ha. cbn in Ha. apply not_elem_of_cons in Ha as [Hab Ha].
        by rewrite Hw' by done.
Qed.

Lemma polled_elem (steady : Z) (L : list (payment_address * address_row)) (q : request) :
  q ∈ flat_map (fun ar => if poll_due steady ar.2 then [RHistory ar.1] else []) L <->
  exists a r, q = RHistory a /\ (a, r) ∈ L /\ poll_due steady r = true.
Proof.
  induction L as [|[b rb] L IH]; cbn.
  - split; [intros H; inversion H|]. intros (a & r & _ & H & _). inversion H.
  - rewrite elem_of_app, IH. split.
    + intros [Hq|(a & r & -> & Har & Hd)].
      * destruct (poll_due steady rb) eqn:Hd; [|inversion Hq].
        apply list_elem_of_singleton in Hq as ->. exists b, rb. split; [done|].
        split; [by left|done].
      * exists a, r. split; [done|]. split; [by right|done].
    + intros (a & r & -> & Har & Hd). apply elem_of_cons in Har as [Har|Har].
      * injection Har as -> ->. left. rewrite Hd. by left.
      * right. eauto.
Qed.

Lemma polled_nodup (steady : Z) (L : list (payment_address * address_row)) :
  NoDup L.*1 ->
  NoDup (flat_map (fun ar => if poll_due steady ar.2 then [RHistory ar.1] else []) L).
Proof.
  induction L as [|[b rb] L IH]; cbn; intros Hnd; [constructor|].
  apply NoDup_cons in Hnd as [Hb Hnd].
  destruct (poll_due steady rb); cbn; [|by apply IH].
  constructor; [|by apply IH]. intros Hin. apply polled_elem in Hin as (a & r & Ha & Har & _).
  injection Ha as <-. apply Hb. apply list_elem_of_fmap. by exists (b, r).
Qed.

(** [wakeup] asks for the block height when 30 seconds have passed since
    the last time it did, and then records the time; it queries, once
    each, exactly the watched addresses whose poll period has elapsed
    since their last check, and records the check; it reports a server
    failure seen since the last call by one [on_fail] and clears the
    flag.  It never aborts and leaves the store alone. *)
Theorem wakeup_effect (steady : Z) (s : updater) :
  exists s' pd, Updater.wakeup steady s = Some s' /\
    pending s' = pending s ++ (if 30000 <=? steady - last_wakeup_ s then [RHeight] else []) ++ pd /\
    NoDup pd /\
    (forall q, q ∈ pd <-> exists a r, q = RHistory a /\ watch_rows s !! a = Some r /\
                               poll_due steady r = true) /\
    (forall a, watch_rows s' !! a = polled_row steady <$> watch_rows s !! a) /\
    last_wakeup_ s' = (if 30000 <=? steady - last_wakeup_ s then steady else last_wakeup_ s) /\
    failed_ s' = false /\
    events s' = events s ++ (if failed_ s then [on_fail] else []) /\
    db_ s' = db_ s.
Proof.
  unfold Updater.wakeup. rewrite seq_ops_cons, wakeup_height, seq_ops_cons.
  unfold with_state at 1. cbn [watch_rows].
  match goal with |- context [for_each ?L _ ?s0] =>
    destruct (wakeup_loop steady L s0) as (s1 & Hrun & Hdb & Hf & Hl & He & Hp & Hw & Hw')
  end.
  { apply NoDup_fst_map_to_list. }
  { intros a r Har. cbn. by apply elem_of_map_to_list. }
  rewrite Hrun. cbn [failed_ db_ last_wakeup_ events pending] in Hdb, Hf, Hl, He, Hp.
  cbn [seq_ops]. unfold with_state. rewrite Hf.
  exists (mk_updater (db_ s1) (watch_rows s1) false (queued_queries_ s1)
            (queued_get_indices_ s1) (last_wakeup_ s1) (pending s1)
            (events s1 ++ if failed_ s then [on_fail] else [])).
  exists (flat_map (fun ar => if poll_due steady ar.2 then [RHistory ar.1] else [])
            (map_to_list (watch_rows s))).
  split.
  { destruct (failed_ s); cbn; [reflexivity|]. rewrite app_nil_r.
    destruct s1; cbn in Hf |- *. by rewrite Hf. }
  cbn [pending watch_rows last_wakeup_ failed_ events db_].
  split; [by rewrite Hp, <- app_assoc|].
  split; [apply polled_nodup, NoDup_fst_map_to_list|].
  split.
  { intros q. rewrite polled_elem. setoid_rewrite elem_of_map_to_list. done. }
  split.
  { intros a. destruct (watch_rows s !! a) as [r|] eqn:Ha.
    - apply Hw. by apply elem_of_map_to_list.
    - rewrite Hw'; [done|]. intros Hin. apply list_elem_of_fmap in Hin as ([b r] & -> & Hin).
      apply elem_of_map_to_list in Hin. cbn in *. congruence. }
  split; [done|]. split; [done|]. split; [by rewrite He|]. done.
Qed.

Lemma for_each_get_index_spec (l : list Z) (s : updater) :
  exists s', for_each l Updater.get_index s = Some s' /\
    db_ s' = db_ s /\ watch_rows s' = watch_rows s /\ failed_ s' = failed_ s /\
    queued_queries_ s' = queued_queries_ s /\ last_wakeup_ s' = last_wakeup_ s /\
    events s' = events s /\ pending s' = pending s ++ map RIndex l.
Proof.
  revert s. induction l as [|h l IH]; intros s.
  - exists s. cbn. by rewrite app_nil_r.
  - unfold for_each. cbn [map]. rewrite seq_ops_cons.
    destruct (IH (mk_updater (db_ s) (watch_rows s) (failed_ s) (queued_queries_ s)
                    (to_size_t (queued_get_indices_ s + 1)) (last_wakeup_ s)
                    (pending s ++ [RIndex h]) (events s)))
      as (s' & Hrun & Hdb & Hw & Hf & Hq & Hl & He & Hp).
    exists s'. split; [exact Hrun|]. cbn in *. rewrite Hp, <- app_assoc. done.
Qed.

Lemma for_each_dispatch {A} (g : A -> request) (l : list A) (s : updater) :
  for_each l (fun x => dispatch (g x)) s =
  Some (mk_updater (db_ s) (watch_rows s) (failed_ s) (queued_queries_ s)
          (queued_get_indices_ s) (last_wakeup_ s) (pending s ++ map g l) (events s)).
Proof.
  revert s. induction l as [|x l IH]; intros s.
  - destruct s. cbn. by rewrite app_nil_r.
  - unfold for_each in *. cbn [map]. rewrite seq_ops_cons. cbn [dispatch]. rewrite IH.
    cbn. by rewrite <- app_assoc.
Qed.

Lemma queue_get_indices_spec (s : updater) :
  exists s', Updater.queue_get_indices s = Some s' /\
    db_ s' = db_ s /\ watch_rows s' = watch_rows s /\ failed_ s' = failed_ s /\
    queued_queries_ s' = queued_queries_ s /\ last_wakeup_ s' = last_wakeup_ s /\
    events s' = events s /\
    pending s' = pending s ++
      (if queued_get_indices_ s =? 0 then map RIndex (foreach_forked (db_ s)) else []).
Proof.
  unfold Updater.queue_get_indices, with_state.
  destruct (queued_get_indices_ s =? 0); cbn [negb].
  - apply for_each_get_index_spec.
  - exists s. cbn. by rewrite app_nil_r.
Qed.

Lemma for_each_get_index_counter (l : list Z) (s : updater) :
  fits 64 (queued_get_indices_ s) ->
  exists s', for_each l Updater.get_index s = Some s' /\
    queued_get_indices_ s' = to_size_t (queued_get_indices_ s + Z.of_nat (length l)).
Proof.
  revert s. induction l as [|h l IH]; intros s Hs.
  - exists s. cbn. split; [done|]. rewrite Z.add_0_r. symmetry. by apply to_size_t_small.
  - unfold for_each. cbn [map]. rewrite seq_ops_cons.
    destruct (IH (mk_updater (db_ s) (watch_rows s) (failed_ s) (queued_queries_ s)
                    (to_size_t (queued_get_indices_ s + 1)) (last_wakeup_ s)
                    (pending s ++ [RIndex h]) (events s)) (to_size_t_fits _))
      as (s' & Hrun & Hq).
    exists s'. split; [exact Hrun|]. rewrite Hq. cbn [queued_get_indices_].
    rewrite to_size_t_add. f_equal. rewrite length_cons, Nat2Z.inj_succ. lia.
Qed.

(** The answer to [fetch_last_height]: a height equal to the last one
    changes nothing; a new one becomes [last_height], is reported by
    [on_height], and an index query is sent for every transaction not
    confirmed; then, when the index-query counter is 0 after those, an
    index query is sent for every confirmed transaction with [need_check]
    set.  The rows, the watched addresses and the query counter stay. *)
Theorem height_done_effect (hf : transaction_type -> Z) (now height : Z) (s : updater)
    (Hq : fits 64 (queued_get_indices_ s)) :
  exists f, Updater.callback hf now RHeight (HeightDone height) = Some f /\
  (height = last_height (db_ s) -> f s = Some s) /\
  (height <> last_height (db_ s) -> exists s', f s = Some s' /\
    last_height (db_ s') = height /\ rows (db_ s') = rows (db_ s) /\
    events s' = events s ++ [on_height height] /\
    pending s' = pending s ++ map RIndex (foreach_unconfirmed (db_ s)) ++
      (if to_size_t (queued_get_indices_ s + Z.of_nat (length (foreach_unconfirmed (db_ s)))) =? 0
       then map RIndex (foreach_forked (db_ s)) else []) /\
    watch_rows s' = watch_rows s /\ queued_queries_ s' = queued_queries_ s).
Proof.
  eexists. split; [reflexivity|]. split.
- intros ->. unfold with_state. by rewrite Z.eqb_refl.
- intros Hne. unfold with_state. rewrite (proj2 (Z.eqb_neq _ _) Hne). cbn [negb].
  cbn [seq_ops upd_db emit].
  match goal with |- context [for_each ?L _ ?s0] =>
    destruct (for_each_get_index_spec L s0) as (s1 & Hrun & Hdb & Hw & Hf & Hq1 & Hl & He & Hp);
    destruct (for_each_get_index_counter L s0 Hq) as (s1' & Hrun' & Hc)
  end.
  rewrite Hrun in Hrun'. injection Hrun' as <-.
  rewrite Hrun.
  destruct (queue_get_indices_spec s1) as (s2 & Hrun2 & Hdb2 & Hw2 & Hf2 & Hq2 & Hl2 & He2 & Hp2).
  rewrite Hrun2. cbn [seq_ops].
  cbn in Hdb, Hw, Hq1, He, Hp, Hc.
  exists s2. split; [done|]. rewrite Hdb2, Hdb. cbn.
  split; [done|]. split; [done|]. split; [by rewrite He2, He|].
  split; [|split; [by rewrite Hw2, Hw|by rewrite Hq2, Hq1]].
  rewrite Hp2, Hp, Hc, Hdb, <- app_assoc. reflexivity.
Qed.

(** [start] asks for the block height, sends an index query for every
    transaction not confirmed, then, when the index-query counter is 0
    after those, one for every confirmed transaction with [need_check]
    set, and broadcasts again every unsent transaction; it never aborts
    and changes neither the store nor the events. *)
Theorem start_effect (s : updater) (Hq : fits 64 (queued_get_indices_ s)) :
  exists s', Updater.start s = Some s' /\
    pending s' = pending s ++ [RHeight] ++ map RIndex (foreach_unconfirmed (db_ s)) ++
      (if to_size_t (queued_get_indices_ s + Z.of_nat (length (foreach_unconfirmed (db_ s)))) =? 0
       then map RIndex (foreach_forked (db_ s)) else []) ++
      map RBroadcast (foreach_unsent (db_ s)) /\
    db_ s' = db_ s /\ events s' = events s /\ watch_rows s' = watch_rows s /\
    queued_queries_ s' = queued_queries_ s /\ failed_ s' = failed_ s.
Proof.
  unfold Updater.start. cbn [seq_ops Updater.get_height dispatch].
  unfold with_state at 1.
  match goal with |- context [for_each ?L _ ?s0] =>
    destruct (for_each_get_index_spec L s0) as (s1 & Hrun & Hdb & Hw & Hf & Hq1 & Hl & He & Hp);
    destruct (for_each_get_index_counter L s0 Hq) as (s1' & Hrun' & Hc)
  end.
  rewrite Hrun in Hrun'. injection Hrun' as <-.
  rewrite Hrun.
  destruct (queue_get_indices_spec s1) as (s2 & Hrun2 & Hdb2 & Hw2 & Hf2 & Hq2 & Hl2 & He2 & Hp2).
  rewrite Hrun2. unfold with_state. unfold Updater.send_tx. rewrite (for_each_dispatch RBroadcast).
  cbn in Hdb, Hw, Hf, Hq1, He, Hp, Hc.
  eexists. split; [reflexivity|]. cbn [pending db_ events watch_rows queued_queries_ failed_].
  rewrite Hdb2, Hdb, Hp2, Hp, Hc, He2, He, Hw2, Hw, Hq2, Hq1, Hf2, Hf, <- !app_assoc.
  rewrite Hdb. repeat split.
Qed.

Lemma same_txs_lookup (d d' : tx_db) (k : Z) :
  (forall k, tx <$> rows d' !! k = tx <$> rows d !! k) ->
  has_tx d' k = has_tx d k /\ get_tx d' k = get_tx d k.
Proof.
  intros H. specialize (H k). unfold has_tx, get_tx.
  destruct (rows d' !! k), (rows d !! k); cbn in H; try discriminate; [|done].
  injection H as ->. done.
Qed.

Lemma reset_timestamp_txs (d : tx_db) (now h k : Z) :
  tx <$> rows (reset_timestamp d now h) !! k = tx <$> rows d !! k.
Proof.
  unfold reset_timestamp. destruct (rows d !! h) as [r|] eqn:E; [|done]. cbn.
  destruct (decide (k = h)) as [->|Hk].
  - by rewrite lookup_insert_eq, E.
  - by rewrite lookup_insert_ne by congruence.
Qed.

Lemma watch_input (now h : Z) (s : updater) :
  Updater.watch_tx_with (fun _ => skip) now h false s =
  Some (mk_updater (reset_timestamp (db_ s) now h) (watch_rows s) (failed_ s)
          (if has_tx (db_ s) h then queued_queries_ s else to_size_t (queued_queries_ s + 1))
          (queued_get_indices_ s) (last_wakeup_ s)
          (pending s ++ if has_tx (db_ s) h then [] else [RTx h false]) (events s)).
Proof.
  unfold Updater.watch_tx_with. cbn [seq_ops upd_db]. unfold with_state. cbn [db_].
  rewrite (proj1 (same_txs_lookup (db_ s) _ h (reset_timestamp_txs (db_ s) now h))).
  destruct (has_tx (db_ s) h); cbn; by rewrite ?app_nil_r.
Qed.

Lemma get_inputs_spec (now : Z) (t : transaction_type) (s : updater) :
  exists s' pd, Updater.get_inputs now t s = Some s' /\
    (forall k, tx <$> rows (db_ s') !! k = tx <$> rows (db_ s) !! k) /\
    events s' = events s /\ pending s' = pending s ++ pd /\
    (forall q, q ∈ pd -> exists input, input ∈ tx_inputs t /\
                          q = RTx (op_hash (previous_output input)) false).
Proof.
  unfold Updater.get_inputs, for_each.
  assert (Hgen : forall l, (forall input, input ∈ l -> input ∈ tx_inputs t) ->
    forall s, exists s' pd, seq_ops (map (fun input =>
      Updater.watch_tx_with (fun _ => skip) now (op_hash (previous_output input)) false) l) s
      = Some s' /\
    (forall k, tx <$> rows (db_ s') !! k = tx <$> rows (db_ s) !! k) /\
    events s' = events s /\ pending s' = pending s ++ pd /\
    (forall q, q ∈ pd -> exists input, input ∈ tx_inputs t /\
                          q = RTx (op_hash (previous_output input)) false)).
  { induction l as [|input l IH]; intros Hl s0.
    - exists s0, []. cbn. rewrite app_nil_r. split; [done|]. split; [done|].
      split; [done|]. split; [done|]. intros q Hq. inversion Hq.
    - cbn [map]. rewrite seq_ops_cons, watch_input.
      destruct (IH (fun i Hi => Hl i (proj2 (elem_of_cons _ _ _) (or_intror Hi))) (mk_updater
          (reset_timestamp (db_ s0) now (op_hash (previous_output input))) (watch_rows s0)
          (failed_ s0)
          (if has_tx (db_ s0) (op_hash (previous_output input)) then queued_queries_ s0
           else to_size_t (queued_queries_ s0 + 1))
          (queued_get_indices_ s0) (last_wakeup_ s0)
          (pending s0 ++ if has_tx (db_ s0) (op_hash (previous_output input)) then []
                         else [RTx (op_hash (previous_output input)) false]) (events s0)))
        as (s' & pd & Hrun & Htx & He & Hp & Hpd).
      exists s', ((if has_tx (db_ s0) (op_hash (previous_output input)) then []
                   else [RTx (op_hash (previous_output input)) false]) ++ pd).
      split; [exact Hrun|]. cbn [db_ events pending] in Htx, He, Hp.
      split; [intros k; by rewrite Htx, reset_timestamp_txs|].
      split; [done|]. split; [by rewrite Hp, app_assoc|].
      intros q Hq. apply elem_of_app in Hq as [Hq|Hq]; [|by apply Hpd].
      destruct (has_tx _ _); [inversion Hq|]. apply list_elem_of_singleton in Hq as ->.
      exists input. split; [apply Hl; by left|done]. }
  apply Hgen. done.
Qed.

Lemma insert_and_notify_result (hf : transaction_type -> Z) (now : Z) (t : transaction_type)
    (st : Z) (s : updater) :
  Updater.insert_and_notify hf now t st s =
  Some (mk_updater (insert hf (db_ s) now t st).2 (watch_rows s) (failed_ s)
          (queued_queries_ s) (queued_get_indices_ s) (last_wakeup_ s) (pending s)
          (events s ++ if (insert hf (db_ s) now t st).1 then [on_add t] else [])).
Proof.
  unfold Updater.insert_and_notify, with_state.
  destruct (insert hf (db_ s) now t st) as [[] d]; cbn; by rewrite ?app_nil_r.
Qed.

Lemma get_index_result (h : Z) (s : updater) :
  Updater.get_index h s =
  Some (mk_updater (db_ s) (watch_rows s) (failed_ s) (queued_queries_ s)
          (to_size_t (queued_get_indices_ s + 1)) (last_wakeup_ s)
          (pending s ++ [RIndex h]) (events s)).
Proof. reflexivity. Qed.

Lemma query_done_result (s : updater) :
  Updater.query_done s =
  Some (mk_updater (db_ s) (watch_rows s) (failed_ s) (to_size_t (queued_queries_ s + -1))
          (queued_get_indices_ s) (last_wakeup_ s) (pending s)
          (events s ++ if to_size_t (queued_queries_ s + -1) =? 0 then [on_quiet] else [])).
Proof.
  unfold Updater.query_done. cbn [seq_ops add_queries]. unfold with_state. cbn [queued_queries_].
  destruct (to_size_t (queued_queries_ s + -1) =? 0); cbn; by rewrite ?app_nil_r.
Qed.

(** The answer to [fetch_transaction] or [fetch_unconfirmed_transaction]:
    a transaction whose hash is not the one asked for aborts.  Otherwise
    the transaction is stored unless one is already stored under its
    hash, and [on_add] reports it when it is new.  When the inputs are
    wanted, the previous transactions of its inputs that are not stored
    are asked for.  Then an index query is sent for it, and [query_done]
    ends the query ([on_quiet] when the counter reaches 0). *)
Theorem tx_done_effect (hf : transaction_type -> Z) (now h : Z) (w : bool)
    (t : transaction_type) (s : updater) :
  (h <> hf t -> Updater.tx_done hf now h w t s = None) /\
  (h = hf t -> exists s' pd, Updater.tx_done hf now h w t s = Some s' /\
     has_tx (db_ s') h = true /\
     get_tx (db_ s') h = (if has_tx (db_ s) h then get_tx (db_ s) h else t) /\
     events s' = events s ++ (if has_tx (db_ s) h then [] else [on_add t]) ++
                 (if queued_queries_ s' =? 0 then [on_quiet] else []) /\
     pending s' = pending s ++ pd ++ [RIndex h] /\
     (forall q, q ∈ pd -> w = true /\ exists input, input ∈ tx_inputs t /\
                          q = RTx (op_hash (previous_output input)) false)).
Proof.
  split.
  - intros Hne. unfold Updater.tx_done. by rewrite (proj2 (Z.eqb_neq _ _) Hne).
  - intros ->. unfold Updater.tx_done. rewrite Z.eqb_refl. cbn [negb].
    rewrite seq_ops_cons, insert_and_notify_result, seq_ops_cons.
    set (s1 := mk_updater _ _ _ _ _ _ _ _).
    assert (Hw : exists s2 pd, when w (Updater.get_inputs now t) s1 = Some s2 /\
      (forall k, tx <$> rows (db_ s2) !! k = tx <$> rows (db_ s1) !! k) /\
      events s2 = events s1 /\ pending s2 = pending s1 ++ pd /\
      (forall q, q ∈ pd -> w = true /\ exists input, input ∈ tx_inputs t /\
                          q = RTx (op_hash (previous_output input)) false)).
    { destruct w; cbn [when].
      - destruct (get_inputs_spec now t s1) as (s2 & pd & H1 & H2 & H3 & H4 & H5).
        exists s2, pd. do 4 (split; [done|]). intros q Hq. split; [done|]. by apply H5.
      - exists s1, []. cbn. rewrite app_nil_r. do 4 (split; [done|]).
        intros q Hq. inversion Hq. }
    destruct Hw as (s2 & pd & Hrun & Htx & He & Hp & Hpd). rewrite Hrun.
    rewrite seq_ops_cons, get_index_result, seq_ops_cons, query_done_result. cbn [seq_ops].
    eexists. exists pd. split; [reflexivity|].
    cbn [db_ events pending queued_queries_].
    destruct (same_txs_lookup _ _ (hf t) Htx) as [Hh Hg]. rewrite Hh, Hg.
    subst s1. cbn [db_ events pending] in *.
    unfold insert, has_tx, get_tx. destruct (rows (db_ s) !! hf t) as [r|] eqn:Hr.
    + cbn. rewrite Hr. split; [done|]. split; [done|].
      rewrite He. unfold insert. rewrite Hr. cbn. rewrite ?app_nil_r. split; [done|].
      split; [by rewrite Hp, app_assoc|done].
    + cbn. rewrite lookup_insert_eq. split; [done|]. split; [done|].
      split; [rewrite He; unfold insert; rewrite Hr; cbn; by rewrite <- app_assoc|].
      split; [by rewrite Hp, app_assoc|done].
Qed.

Lemma n_index_app (l1 l2 : list request) : n_index (l1 ++ l2) = n_index l1 + n_index l2.
Proof. induction l1 as [|r l1 IH]; cbn; [done|]. rewrite IH. lia. Qed.

Lemma n_index_delete (l : list request) (i : nat) (r : request) :
  l !! i = Some r ->
  n_index l = n_index (delete i l) + (if is_index r then 1 else 0).
Proof.
  intros Hi. rewrite <- (take_drop_middle l i r Hi) at 1.
  rewrite delete_take_drop, !n_index_app. cbn. lia.
Qed.

Lemma n_index_nonneg (l : list request) : 0 <= n_index l.
Proof. induction l as [|r l IH]; cbn; [lia|]. destruct (is_index r); lia. Qed.

Create HintDb itame.

Ltac itame_frame :=
  intros ?s ?s' ?Hq ?H; cbn in H;
  repeat match type of H with
         | match ?x with _ => _ end = _ => destruct x; [|discriminate]
         end;
  injection H as <-;
  exists []; cbn; rewrite !app_nil_r;
  split; [done|]; rewrite Z.add_0_r, to_size_t_small; done.

Lemma itame_skip : itame skip.
Proof. itame_frame. Qed.

Lemma itame_abort : itame abort.
Proof. intros s s' _ H. discriminate H. Qed.

Lemma itame_upd_db (f : tx_db -> tx_db) : itame (upd_db f).
Proof. itame_frame. Qed.

Lemma itame_upd_db_opt (f : tx_db -> option tx_db) : itame (upd_db_opt f).
Proof.
  intros s s' Hq H. unfold upd_db_opt in H. destruct (f (db_ s)); [|discriminate].
  injection H as <-. exists []. cbn. rewrite !app_nil_r.
  split; [done|]. rewrite Z.add_0_r, to_size_t_small; done.
Qed.

Lemma itame_emit (e : event) : itame (emit e).
Proof. itame_frame. Qed.

Lemma itame_set_failed (b : bool) : itame (set_failed b).
Proof. itame_frame. Qed.

Lemma itame_add_queries (d : Z) : itame (add_queries d).
Proof. itame_frame. Qed.

Lemma itame_set_last_wakeup (t : Z) : itame (set_last_wakeup t).
Proof. itame_frame. Qed.

Lemma itame_set_watch_row (a : payment_address) (r : address_row) : itame (set_watch_row a r).
Proof. itame_frame. Qed.

Lemma itame_dispatch (r : request) : is_index r = false -> itame (dispatch r).
Proof.
  intros Hr s s' Hq H. injection H as <-. exists [r]. cbn. rewrite Hr.
  split; [done|]. rewrite Z.add_0_r, to_size_t_small; done.
Qed.

Lemma itame_get_index (h : Z) : itame (Updater.get_index h).
Proof.
  intros s s' Hq H. rewrite get_index_result in H. injection H as <-. exists [RIndex h].
  cbn. split; [done|]. f_equal; lia.
Qed.

Lemma itame_seq (fs : list M) : Forall itame fs -> itame (seq_ops fs).
Proof.
  induction fs as [|f fs IH]; intros Hfs.
  - itame_frame.
  - apply Forall_cons in Hfs as [Hf Hfs]. intros s s'' Hq H. cbn in H.
    destruct (f s) as [s1|] eqn:E1; [|discriminate].
    destruct (Hf s s1 Hq E1) as (pd1 & Hp1 & Hq1).
    assert (fits 64 (queued_get_indices_ s1)) as Hq1' by (rewrite Hq1; apply to_size_t_fits).
    destruct (IH Hfs s1 s'' Hq1' H) as (pd2 & Hp2 & Hq2).
    exists (pd1 ++ pd2).
    rewrite Hp2, Hp1, Hq2, Hq1, !app_assoc, to_size_t_add, n_index_app.
    split; [done|]. f_equal. lia.
Qed.

Lemma Forall_itame_map {A} (l : list A) (f : A -> M) :
  (forall x, itame (f x)) -> Forall itame (map f l).
Proof. intros Hf. induction l; cbn; constructor; auto. Qed.

Lemma itame_for_each {A} (l : list A) (f : A -> M) :
  (forall x, itame (f x)) -> itame (for_each l f).
Proof. intros Hf. apply itame_seq, Forall_itame_map, Hf. Qed.

Lemma itame_with_state (g : updater -> M) : (forall s, itame (g s)) -> itame (with_state g).
Proof. intros Hg s s' Hq H. exact (Hg s s s' Hq H). Qed.

Lemma itame_when (b : bool) (f : M) : itame f -> itame (when b f).
Proof. intros Hf. destruct b; [exact Hf|apply itame_skip]. Qed.

#[local] Hint Resolve itame_skip itame_abort itame_upd_db itame_upd_db_opt itame_emit
  itame_set_failed itame_add_queries itame_set_last_wakeup itame_set_watch_row
  itame_get_index : itame.

Ltac itame_solve :=
  repeat match goal with
  | |- itame (for_each _ _) => apply itame_for_each; intro
  | |- itame (seq_ops _) => apply itame_seq; repeat constructor
  | |- itame (with_state _) => apply itame_with_state; intro
  | |- itame (when _ _) => apply itame_when
  | |- itame (dispatch _) => apply itame_dispatch; reflexivity
  | |- itame _ => solve [eauto with itame]
  end.

Lemma itame_queue_get_indices : itame Updater.queue_get_indices.
Proof.
  unfold Updater.queue_get_indices. apply itame_with_state. intros s.
  destruct (negb _); itame_solve.
Qed.
#[local] Hint Resolve itame_queue_get_indices : itame.

Lemma itame_query_done : itame Updater.query_done.
Proof. unfold Updater.query_done. itame_solve. Qed.
#[local] Hint Resolve itame_query_done : itame.

Lemma itame_get_tx (h : Z) (w : bool) : itame (Updater.get_tx h w).
Proof. unfold Updater.get_tx. itame_solve. Qed.
#[local] Hint Resolve itame_get_tx : itame.

Lemma itame_get_tx_mem (h : Z) (w : bool) : itame (Updater.get_tx_mem h w).
Proof. unfold Updater.get_tx_mem. itame_solve. Qed.
#[local] Hint Resolve itame_get_tx_mem : itame.

Lemma itame_query_address (a : payment_address) : itame (Updater.query_address a).
Proof. unfold Updater.query_address. itame_solve. Qed.
#[local] Hint Resolve itame_query_address : itame.

Lemma itame_watch_tx_with (gi : transaction_type -> M) (now h : Z) (w : bool) :
  (forall t, itame (gi t)) -> itame (Updater.watch_tx_with gi now h w).
Proof.
  intros Hgi. unfold Updater.watch_tx_with. apply itame_seq. repeat constructor.
  - apply itame_upd_db.
  - apply itame_with_state. intros s. destruct (negb _); [apply itame_get_tx|].
    apply itame_when, Hgi.
Qed.

Lemma itame_get_inputs (now : Z) (t : transaction_type) : itame (Updater.get_inputs now t).
Proof.
  unfold Updater.get_inputs. apply itame_for_each. intros i.
  apply itame_watch_tx_with. intros _. apply itame_skip.
Qed.
#[local] Hint Resolve itame_get_inputs : itame.

Lemma itame_watch_tx (now h : Z) (w : bool) : itame (Updater.watch_tx now h w).
Proof. apply itame_watch_tx_with. intros t. apply itame_get_inputs. Qed.
#[local] Hint Resolve itame_watch_tx : itame.

Lemma itame_insert_and_notify (hf : transaction_type -> Z) (now : Z) (t : transaction_type)
    (st : Z) : itame (Updater.insert_and_notify hf now t st).
Proof.
  unfold Updater.insert_and_notify. apply itame_with_state. intros s.
  destruct (insert hf (db_ s) now t st) as [added d]. itame_solve.
Qed.
#[local] Hint Resolve itame_insert_and_notify : itame.

Lemma itame_tx_done (hf : transaction_type -> Z) (now h : Z) (w : bool) (t : transaction_type) :
  itame (Updater.tx_done hf now h w t).
Proof. unfold Updater.tx_done. destruct (negb _); itame_solve. Qed.
#[local] Hint Resolve itame_tx_done : itame.

Lemma itame_run_user (hf : transaction_type -> Z) (now steady : Z) (op : user_op) :
  itame (Updater.run_user hf now steady op).
Proof.
  destruct op; cbn [Updater.run_user].
  - unfold Updater.start, Updater.get_height, Updater.send_tx. itame_solve.
  - unfold Updater.watch_address. itame_solve.
  - unfold Updater.send, Updater.send_tx. itame_solve.
  - unfold Updater.wakeup, Updater.get_height. itame_solve.
Qed.

Lemma callback_not_index (hf : transaction_type -> Z) (now : Z) (r : request)
    (resp : response) (f : M) :
  is_index r = false -> Updater.callback hf now r resp = Some f -> itame f.
Proof.
  intros Hr Hf. destruct r; try discriminate Hr; destruct resp; cbn [Updater.callback] in Hf;
    try discriminate Hf; apply (inj Some) in Hf; subst f; itame_solve.
  destruct (negb _); itame_solve.
Qed.

Lemma callback_index (hf : transaction_type -> Z) (now h : Z) (resp : response) (f : M)
    (s s' : updater) :
  Updater.callback hf now (RIndex h) resp = Some f -> f s = Some s' ->
  exists pd, pending s' = pending s ++ pd /\
    queued_get_indices_ s' = to_size_t (queued_get_indices_ s - 1 + n_index pd).
Proof.
  intros Hf Hs. destruct resp; cbn [Updater.callback] in Hf; try discriminate Hf;
    apply (inj Some) in Hf; subst f; cbn [seq_ops] in Hs; unfold upd_db_opt in Hs;
    (destruct (_ (db_ s)) as [d|]; [|discriminate]);
    cbn [add_get_indices queued_get_indices_ pending] in Hs;
    (destruct (Updater.queue_get_indices _) as [s2|] eqn:E; [|discriminate]);
    injection Hs as <-;
    (pose proof itame_queue_get_indices as Hi; unfold itame in Hi;
     eapply Hi in E as (pd & Hp & Hq); [|cbn [queued_get_indices_]; apply to_size_t_fits]);
    exists pd; cbn [pending queued_get_indices_] in Hp, Hq;
    (split; [done|]); rewrite Hq, to_size_t_add; f_equal; lia.
Qed.

(** One step keeps [queued_get_indices_] equal to the number of
    outstanding index queries (modulo 2^64). *)
Lemma step_indices (hf : transaction_type -> Z) (s s' : updater) :
  Updater.step hf s s' ->
  queued_get_indices_ s = to_size_t (n_index (pending s)) ->
  queued_get_indices_ s' = to_size_t (n_index (pending s')).
Proof.
  intros Hstep Hinv.
  assert (fits 64 (queued_get_indices_ s)) as Hq by (rewrite Hinv; apply to_size_t_fits).
  inversion Hstep as [now steady op s0 s0' Hrun|now i r resp f s0 s0' Hi Hcb Hf]; subst s0 s0'.
  - destruct (itame_run_user hf now steady op s s' Hq Hrun) as (pd & Hp & Hq').
    by rewrite Hq', Hp, Hinv, to_size_t_add, n_index_app.
  - pose proof (n_index_delete _ _ _ Hi) as Hdel.
    destruct r as [|? ?|? ?|h|?|?]; cbn [is_index] in Hdel;
      try (eapply callback_not_index in Hcb; [|reflexivity];
           destruct (Hcb (remove_pending i s) s' Hq Hf) as (pd & Hp & Hq');
           unfold remove_pending in Hp, Hq'; cbn [pending queued_get_indices_] in Hp, Hq';
           rewrite Hq', Hp, Hinv, to_size_t_add, n_index_app; f_equal; lia).
    destruct (callback_index hf now h resp f (remove_pending i s) s' Hcb Hf) as (pd & Hp & Hq').
    unfold remove_pending in Hp, Hq'; cbn [pending queued_get_indices_] in Hp, Hq'.
    rewrite Hq', Hp, Hinv, n_index_app.
    replace (to_size_t (n_index (pending s)) - 1 + n_index pd)
      with (to_size_t (n_index (pending s)) + (n_index pd - 1)) by lia.
    rewrite to_size_t_add. f_equal. lia.
Qed.

Lemma reachable_indices (hf : transaction_type -> Z) (db : tx_db) (steady : Z) (s : updater) :
  rtc (Updater.step hf) (init_updater db steady) s ->
  queued_get_indices_ s = to_size_t (n_index (pending s)).
Proof.
  revert s. apply rtc_ind_r.
  - reflexivity.
  - intros s1 s2 _ Hstep IH. exact (step_indices hf s1 s2 Hstep IH).
Qed.

Lemma n_index_pos (l : list request) : 0 < n_index l <-> exists h, RIndex h ∈ l.
Proof.
  induction l as [|r l IH]; cbn.
  - split; [lia|]. intros [h Hh]. inversion Hh.
  - pose proof (n_index_nonneg l). split.
    + intros Hpos. destruct r; cbn in Hpos; try (destruct IH as [IH _];
        destruct (IH ltac:(lia)) as [h Hh]; exists h; by right).
      exists tx_hash. by left.
    + intros [h Hh]. apply elem_of_cons in Hh as [<-|Hh]; cbn; [lia|].
      assert (0 < n_index l) by (apply IH; by exists h). destruct (is_index r); lia.
Qed.

(** In every reachable state [queued_get_indices_] is the number of
    outstanding transaction-index queries (modulo 2^64).  So, while fewer
    than 2^64 of them are outstanding, the counter is 0 exactly when none
    is, and [queue_get_indices] queues nothing while one is. *)
Theorem get_indices_counter (hash_transaction : transaction_type -> Z) (db : tx_db)
    (steady : Z) (s : updater)
    (Hreach : rtc (Updater.step hash_transaction) (init_updater db steady) s) :
  queued_get_indices_ s = to_size_t (n_index (pending s)) /\
  (n_index (pending s) < 2 ^ 64 ->
   (queued_get_indices_ s = 0 <-> forall h, RIndex h ∉ pending s) /\
   ((exists h, RIndex h ∈ pending s) -> Updater.queue_get_indices s = Some s)).
Proof.
  pose proof (reachable_indices hash_transaction db steady s Hreach) as Hinv.
  split; [exact Hinv|]. intros Hlt.
  pose proof (n_index_nonneg (pending s)) as Hn.
  rewrite to_size_t_small in Hinv by (unfold fits; lia).
  split.
  - split.
    + intros H0 h Hh. assert (0 < n_index (pending s)) by (apply n_index_pos; eauto). lia.
    + intros Hnone. destruct (Z.eq_dec (n_index (pending s)) 0) as [E|E]; [lia|].
      destruct (proj1 (n_index_pos (pending s)) ltac:(lia)) as [h Hh].
      exfalso. exact (Hnone h Hh).
  - intros Hsome. apply n_index_pos in Hsome.
    unfold Updater.queue_get_indices, with_state.
    rewrite (proj2 (Z.eqb_neq (queued_get_indices_ s) 0) ltac:(lia)). reflexivity.
Qed.

Lemma get_indices_counter_witness :
  rtc (Updater.step quiet_hash) (init_updater index_db 0) index_s1 /\
  pending index_s1 = [RHeight; RIndex 5] /\
  Updater.queue_get_indices index_s1 = Some index_s1.
Proof.
  assert (H1 : rtc (Updater.step quiet_hash) (init_updater index_db 0) index_s1).
  { apply rtc_once. apply (Updater.step_user quiet_hash 0 0 Start).
    vm_compute. reflexivity. }
  assert (H2 : pending index_s1 = [RHeight; RIndex 5]) by (vm_compute; reflexivity).
  split; [exact H1|]. split; [exact H2|].
  apply (proj2 (proj2 (get_indices_counter quiet_hash index_db 0 index_s1 H1)
                 ltac:(rewrite H2; vm_compute; reflexivity))).
  exists 5. rewrite H2. right. left.
Defined.

Lemma height_done_effect_witness :
  fits 64 (queued_get_indices_ (init_updater forked_db 0)) /\
  exists f s', Updater.callback quiet_hash 0 RHeight (HeightDone 7) = Some f /\
    f (init_updater forked_db 0) = Some s' /\ pending s' = [RIndex 5].
Proof.
  assert (Hq : fits 64 (queued_get_indices_ (init_updater forked_db 0)))
    by (unfold fits; cbn; lia).
  split; [exact Hq|].
  destruct (height_done_effect quiet_hash 0 7 (init_updater forked_db 0) Hq)
    as (f & Hf & _ & H).
  destruct (H ltac:(vm_compute; discriminate)) as (s' & Hs' & _ & _ & _ & Hp & _).
  exists f, s'. split; [exact Hf|]. split; [exact Hs'|].
  rewrite Hp. vm_compute. reflexivity.
Defined.

Lemma start_effect_witness :
  fits 64 (queued_get_indices_ (init_updater forked_db 0)) /\
  exists s', Updater.start (init_updater forked_db 0) = Some s' /\
    pending s' = [RHeight; RIndex 5].
Proof.
  assert (Hq : fits 64 (queued_get_indices_ (init_updater forked_db 0)))
    by (unfold fits; cbn; lia).
  split; [exact Hq|].
  destruct (start_effect (init_updater forked_db 0) Hq) as (s' & Hs' & Hp & _).
  exists s'. split; [exact Hs'|]. rewrite Hp. vm_compute. reflexivity.
Defined.
